(** * Condo: the list synchronisation and reordering engine of [App.tsx]

    A shallow embedding of the React component [App] (the Firestore version
    with drag-and-drop reordering): the snapshot callback, the form handler
    [handleSubmit], [toggle], [remove] and the drag handlers, as functions
    from the component state to the next state and the remote requests they
    issue. *)

From Stdlib Require Import Ascii QArith.QArith_base Sorting.Sorted.
From stdpp Require Import gmap strings list.

Local Open Scope string_scope.
Local Open Scope Z_scope.
Local Open Scope list_scope.

(** ** JavaScript values *)

(** A JS [number].  Every finite double is a rational, so [Fin q] stands for
    the double whose exact value is [q]; the program only ever tests a number
    for NaN, for zero (truthiness) and writes array indices. *)
Inductive number :=
| NaN
| Infinity (negative : bool)
| Fin (q : Q).

(** [Number.isNaN] *)
Definition isNaN (n : number) : bool :=
  match n with NaN => true | _ => false end.

(** An array index or length as a JS number. *)
Definition of_nat (i : nat) : number := Fin (inject_Z (Z.of_nat i)).

(** A value held by a stored document field.  [VObject] stands for every
    other kind of stored value (map, array, timestamp, reference): truthy and
    not of type number. *)
Inductive value :=
| VNull
| VBool (b : bool)
| VNum (n : number)
| VStr (s : string)
| VObject.

(** Truthiness of a string: [!s] is true exactly for the empty string. *)
Definition nonempty (s : string) : bool :=
  match s with EmptyString => false | String _ _ => true end.

(** [!!v], where a missing property reads as [undefined]. *)
Definition truthy (v : option value) : bool :=
  match v with
  | None | Some VNull => false
  | Some (VBool b) => b
  | Some (VNum NaN) => false
  | Some (VNum (Infinity _)) => true
  | Some (VNum (Fin q)) => negb (Qnum q =? 0)
  | Some (VStr s) => nonempty s
  | Some VObject => true
  end.

(** [a ?? b]: [b] when [a] is [null] or [undefined], else [a]. *)
Definition nullish (a b : option value) : option value :=
  match a with
  | None | Some VNull => b
  | Some _ => a
  end.

(** [a ?? b] with a default that is a value, as in [data.room ?? '']. *)
Definition nullish_or (a : option value) (b : value) : value :=
  match a with
  | None | Some VNull => b
  | Some v => v
  end.

(** [typeof v === 'number' ? v : undefined] *)
Definition number_or_undefined (v : option value) : option number :=
  match v with
  | Some (VNum n) => Some n
  | _ => None
  end.

(** A property that reads as [null] or [undefined]. *)
Definition missing (v : option value) : Prop := v = None ∨ v = Some VNull.

(** ** Documents and items *)

(** A document of a query snapshot: [d.id] and [d.data()].  The cast of
    [d.data()] to the expected shape is unchecked, so the fields hold
    whatever the store holds. *)
Module Doc.
Record t := mk { id : string; data : gmap string value }.
End Doc.

(** [type Todo].  The fields copied from a document without a runtime check
    ([name], [room], [model], [imgUrl], [link]) carry the stored value. *)
Module Todo.
Record t := mk {
  id : string;
  name : value;
  room : value;
  model : option value;
  price : option number;
  imgUrl : option value;
  link : option value;
  completed : bool
}.
End Todo.

(** The body of [snap.docs.map(d => ...)] in the subscription effect. *)
Definition docToTodo (d : Doc.t) : Todo.t :=
  let data := Doc.data d in
  {| Todo.id := Doc.id d;
     Todo.name :=
       nullish_or (nullish (data !! "name") (data !! "title")) (VStr "");
     Todo.room := nullish_or (data !! "room") (VStr "");
     Todo.model := nullish (data !! "model") None;
     Todo.price := number_or_undefined (data !! "price");
     Todo.imgUrl := nullish (data !! "imgUrl") None;
     Todo.link := nullish (data !! "link") None;
     Todo.completed := truthy (data !! "completed") |}.

(** ** Remote requests *)

(** What a write carries for one field: a plain value, or one of the
    sentinels returned by [deleteField()] and [serverTimestamp()]. *)
Inductive fieldValue :=
| Plain (v : value)
| deleteField
| serverTimestamp.

(** The calls made on the remote store.  [batchCommit] is a [writeBatch]
    with its [batch.update(doc(db, coll, id), data)] entries in the order
    they were added, committed by [batch.commit()]. *)
Inductive RemoteOp :=
| updateDoc (coll docId : string) (data : gmap string fieldValue)
| addDoc (coll : string) (data : gmap string fieldValue)
| deleteDoc (coll docId : string)
| batchCommit (updates : list (string * string * gmap string fieldValue)).

(** What the handler attached to the promise of a request. *)
Inductive Cont :=
| nothing
| warn (label : string)
| thenCloseModal.

Record Request := {
  op : RemoteOp;
  onFulfilled : Cont;
  onRejected : Cont
}.

(** ** Component state *)

(** The [useState] cells of [App] that the handlers below read or write.
    [todos] is the Local View. *)
Record State := {
  todos : list Todo.t;
  selectedCollection : string;
  name : string;
  room : string;
  model : string;
  price : string;
  imgUrl : string;
  link : string;
  error : option string;
  modalOpen : bool;
  editId : option string;
  draggingId : option string
}.

Definition setTodos (v : list Todo.t) (st : State) : State :=
  {| todos := v; selectedCollection := selectedCollection st;
     name := name st; room := room st; model := model st; price := price st;
     imgUrl := imgUrl st; link := link st; error := error st;
     modalOpen := modalOpen st; editId := editId st;
     draggingId := draggingId st |}.

Definition setError (v : option string) (st : State) : State :=
  {| todos := todos st; selectedCollection := selectedCollection st;
     name := name st; room := room st; model := model st; price := price st;
     imgUrl := imgUrl st; link := link st; error := v;
     modalOpen := modalOpen st; editId := editId st;
     draggingId := draggingId st |}.

Definition setModalOpen (v : bool) (st : State) : State :=
  {| todos := todos st; selectedCollection := selectedCollection st;
     name := name st; room := room st; model := model st; price := price st;
     imgUrl := imgUrl st; link := link st; error := error st;
     modalOpen := v; editId := editId st;
     draggingId := draggingId st |}.

Definition setDraggingId (v : option string) (st : State) : State :=
  {| todos := todos st; selectedCollection := selectedCollection st;
     name := name st; room := room st; model := model st; price := price st;
     imgUrl := imgUrl st; link := link st; error := error st;
     modalOpen := modalOpen st; editId := editId st;
     draggingId := v |}.

(** A nullable string used as a condition: [null] and [''] are falsy. *)
Definition truthy_id (o : option string) : bool :=
  match o with
  | Some s => nonempty s
  | None => false
  end.

(** ** Array helpers *)

(** [Array.prototype.findIndex]: the first index whose element satisfies
    [p], or [-1]. *)
Fixpoint findIndex_from {A} (p : A → bool) (l : list A) (i : Z) : Z :=
  match l with
  | [] => -1
  | x :: l' => if p x then i else findIndex_from p l' (i + 1)
  end.

Definition findIndex {A} (p : A → bool) (l : list A) : Z :=
  findIndex_from p l 0.

(** [Array.prototype.splice(start, deleteCount, ...items)]: the removed
    elements and the array afterwards.  A negative [start] counts from the
    end, a [start] beyond the end is the end, and [deleteCount] is clamped to
    what is left. *)
Definition splice {A} (l : list A) (start deleteCount : Z) (items : list A)
  : list A * list A :=
  let len := Z.of_nat (length l) in
  let s := if start <? 0 then Z.max (len + start) 0 else Z.min start len in
  let dc := Z.min (Z.max deleteCount 0) (len - s) in
  (take (Z.to_nat dc) (drop (Z.to_nat s) l),
   take (Z.to_nat s) l ++ items ++ drop (Z.to_nat (s + dc)) l).

(** ** Handlers *)

(** The callback given to [onSnapshot]: the mapped documents replace the
    Local View. *)
Definition onSnapshot (docs : list Doc.t) (st : State) : State :=
  setTodos (docToTodo <$> docs) st.

Definition has_id (i : string) (t : Todo.t) : bool := String.eqb (Todo.id t) i.

(** [toggle(id)] *)
Definition toggle (i : string) (st : State) : State * list Request :=
  match find (has_id i) (todos st) with
  | None => (st, [])
  | Some t =>
      (st, [ {| op := updateDoc (selectedCollection st) i
                        {[ "completed" := Plain (VBool (negb (Todo.completed t))) ]};
                onFulfilled := nothing;
                onRejected := warn "toggle failed" |} ])
  end.

(** [remove(id)] *)
Definition remove (i : string) (st : State) : State * list Request :=
  (st, [ {| op := deleteDoc (selectedCollection st) i;
            onFulfilled := nothing;
            onRejected := warn "remove failed" |} ]).

(** [closeModal()] *)
Definition closeModal (st : State) : State := setModalOpen false st.

(** [onDragStartCard(id, e)]; the drag image is presentation only. *)
Definition onDragStartCard (i : string) (st : State) : State :=
  setDraggingId (Some i) st.

(** [onDragEndCard()] *)
Definition onDragEndCard (st : State) : State := setDraggingId None st.

(** The entries [newList.forEach((t, idx) => batch.update(doc(db, coll, t.id),
    { sort: idx }))] adds to the batch. *)
Definition sortUpdates (coll : string) (newList : list Todo.t)
  : list (string * string * gmap string fieldValue) :=
  imap (λ idx t, (coll, Todo.id t, {[ "sort" := Plain (VNum (of_nat idx)) ]})) newList.

(** [const batch = writeBatch(db)], the [forEach] above, and
    [batch.commit().catch(err => console.warn('save order failed', err))]. *)
Definition commitOrder (coll : string) (newList : list Todo.t) : Request :=
  {| op := batchCommit (sortUpdates coll newList);
     onFulfilled := nothing;
     onRejected := warn "save order failed" |}.

(** [onDropCard(targetId)].  [moved] is the element removed by the first
    [splice]; the list of removed elements is never empty there, since
    [srcIdx] is an index returned by [findIndex]. *)
Definition onDropCard (targetId : string) (st : State) : State * list Request :=
  match draggingId st with
  | None => (st, [])
  | Some dragging =>
      if negb (nonempty dragging) || String.eqb dragging targetId then (st, [])
      else
        let srcIdx := findIndex (has_id dragging) (todos st) in
        let dstIdx := findIndex (has_id targetId) (todos st) in
        if (srcIdx <? 0) || (dstIdx <? 0) then (st, [])
        else
          let newList := todos st in
          let '(removed, newList) := splice newList srcIdx 1 [] in
          match removed with
          | [] => (st, [])
          | moved :: _ =>
              let '(_, newList) := splice newList dstIdx 0 [moved] in
              (setDraggingId None (setTodos newList st),
               [ commitOrder (selectedCollection st) newList ])
          end
  end.

(** ** The form handler *)

(** The platform functions [handleSubmit] calls: [String.prototype.trim],
    [Number.parseFloat], and whether [new URL(u)] returns rather than
    throws. *)
Class Platform := {
  trim : string → string;
  parseFloat : string → number;
  URL_parses : string → bool
}.

Section Submit.
Context `{Platform}.

(** [isValidUrl] *)
Definition isValidUrl (u : string) : bool := URL_parses u.

Definition optional_string (s : string) : fieldValue :=
  if nonempty s then Plain (VStr s) else deleteField.

(** The object given to [updateDoc] on the edit path. *)
Definition payloadUpdate (n rm m priceText : string) (p : number) (img lnk : string)
  : gmap string fieldValue :=
  <[ "link" := optional_string lnk ]>
  (<[ "imgUrl" := optional_string img ]>
  (<[ "price" := if nonempty priceText then Plain (VNum p) else deleteField ]>
  (<[ "model" := optional_string m ]>
  (<[ "room" := Plain (VStr rm) ]>
  {[ "name" := Plain (VStr n) ]})))).

Definition set_if (c : bool) (k : string) (v : fieldValue)
  (o : gmap string fieldValue) : gmap string fieldValue :=
  if c then <[ k := v ]> o else o.

(** The object given to [addDoc]: [{ ...payload, sort: todos.length }]. *)
Definition payloadAdd (n rm m : string) (p : number) (img lnk : string) (len : nat)
  : gmap string fieldValue :=
  let payload : gmap string fieldValue :=
    <[ "createdAt" := serverTimestamp ]>
    (<[ "completed" := Plain (VBool false) ]>
    (<[ "room" := Plain (VStr rm) ]>
    {[ "name" := Plain (VStr n) ]})) in
  let payload := set_if (nonempty m) "model" (Plain (VStr m)) payload in
  let payload := set_if (negb (isNaN p)) "price" (Plain (VNum p)) payload in
  let payload := set_if (nonempty img) "imgUrl" (Plain (VStr img)) payload in
  let payload := set_if (nonempty lnk) "link" (Plain (VStr lnk)) payload in
  <[ "sort" := Plain (VNum (of_nat len)) ]> payload.

(** [handleSubmit()], up to the [await]: the state after the synchronous
    part and the request awaited.  What follows the [await] is the
    request's continuations. *)
Definition handleSubmit (st : State) : State * list Request :=
  let n := trim (name st) in
  let rm := trim (room st) in
  let m := trim (model st) in
  let priceText := trim (price st) in
  let p := if nonempty priceText then parseFloat priceText else NaN in
  let img := trim (imgUrl st) in
  let lnk := trim (link st) in
  if negb (nonempty n) then
    (setError (Some "Naziv je obavezan.") st, [])
  else if negb (nonempty rm) then
    (setError (Some "Izaberite prostoriju.") st, [])
  else if nonempty priceText && isNaN p then
    (setError (Some "Cena mora biti broj (ako je navedena).") st, [])
  else if (nonempty img && negb (isValidUrl img))
          || (nonempty lnk && negb (isValidUrl lnk)) then
    (setError (Some "Unesite ispravne URL-ove za sliku i link (ako su navedeni).") st, [])
  else
    let st := setError None st in
    let add :=
      {| op := addDoc (selectedCollection st)
                 (payloadAdd n rm m p img lnk (length (todos st)));
         onFulfilled := thenCloseModal;
         onRejected := warn "submit failed" |} in
    match editId st with
    | Some i =>
        if nonempty i then
          (st, [ {| op := updateDoc (selectedCollection st) i
                            (payloadUpdate n rm m priceText p img lnk);
                    onFulfilled := thenCloseModal;
                    onRejected := warn "submit failed" |} ])
        else (st, [ add ])
    | None => (st, [ add ])
    end.
End Submit.

(** ** Settling a request *)

(** Running the continuation a handler attached to a promise: the next
    state, the lines written with [console.warn], and the requests issued. *)
Definition run (k : Cont) (st : State) : State * list string * list Request :=
  match k with
  | nothing => (st, [], [])
  | warn label => (st, [label], [])
  | thenCloseModal => (closeModal st, [], [])
  end.

(** The remote store fulfils ([ok = true]) or rejects a request. *)
Definition settle (r : Request) (ok : bool) (st : State)
  : State * list string * list Request :=
  run (if ok then onFulfilled r else onRejected r) st.

(** ** The reorder in the specification's words *)

(** The item at index [s] is removed and reinserted at index [d]. *)
Definition moveItem {A} (s d : nat) (l : list A) : list A :=
  match l !! s with
  | Some x => take d (delete s l) ++ x :: drop d (delete s l)
  | None => l
  end.

(** A drag gesture: the card [dragging] is picked up and dropped on the
    card [targetId]. *)
Definition dragAndDrop (dragging targetId : string) (st : State) : State * list Request :=
  onDropCard targetId (onDragStartCard dragging st).

(** The position of an item in a list: its index ([-1] when absent). *)
Definition position (i : string) (l : list Todo.t) : Z := findIndex (has_id i) l.

(** The documents a request writes a position to. *)
Definition updated_ids (r : Request) : list string :=
  match op r with
  | batchCommit updates => (λ u, u.1.2) <$> updates
  | _ => []
  end.

(** A set of position writes is minimal for the step from [old] to [new]
    when it names exactly the items whose position changed. *)
Definition writes_exactly_changed (old new : list Todo.t) (ids : list string) : Prop :=
  ∀ t, t ∈ new →
    Todo.id t ∈ ids ↔ position (Todo.id t) old ≠ position (Todo.id t) new.

(** Applying the gesture a second time changes no position. *)
Definition reorder_idempotent (dragging targetId : string) (st : State) : Prop :=
  let st1 := (dragAndDrop dragging targetId st).1 in
  let st2 := (dragAndDrop dragging targetId st1).1 in
  ∀ i, position i (todos st2) = position i (todos st1).


(** ** The checks of [handleSubmit], as predicates *)

Section Validation.
Context `{Platform}.

Definition missing_title (st : State) : Prop := trim (name st) = "".
Definition missing_category (st : State) : Prop := trim (room st) = "".

(** The price check of the code: the text is not empty and
    [Number.parseFloat] finds no number at its head.  A text that starts with
    a number, such as "12 din", passes it. *)
Definition non_numeric_price (st : State) : Prop :=
  trim (price st) ≠ "" ∧ parseFloat (trim (price st)) = NaN.
Definition malformed_url (st : State) : Prop :=
  (trim (imgUrl st) ≠ "" ∧ URL_parses (trim (imgUrl st)) = false) ∨
  (trim (link st) ≠ "" ∧ URL_parses (trim (link st)) = false).

Definition invalid_input (st : State) : Prop :=
  missing_title st ∨ missing_category st ∨ non_numeric_price st ∨ malformed_url st.

Definition valid_input (st : State) : Prop := ¬ invalid_input st.

(** The submission is an edit when [editId] is set, else an add. *)
Definition is_edit (st : State) (i : string) : Prop := editId st = Some i ∧ i ≠ "".
Definition is_add (st : State) : Prop := editId st = None ∨ editId st = Some "".
End Validation.

(** ** The remote store *)

(** What [updateDoc] does to the stored fields of the document: the fields
    of the update replace the stored ones, [deleteField()] removes the field,
    [serverTimestamp()] stores a timestamp, the other fields stay. *)
Definition applyUpdate (changes : gmap string fieldValue) (data : gmap string value)
  : gmap string value :=
  merge (λ c v,
           match c with
           | Some (Plain x) => Some x
           | Some deleteField => None
           | Some serverTimestamp => Some VObject
           | None => v
           end) changes data.

(** The position the store holds for a document. *)
Definition sort_key (d : Doc.t) : option Q :=
  match Doc.data d !! "sort" with
  | Some (VNum (Fin q)) => Some q
  | _ => None
  end.

(** [d1] comes no later than [d2] under [orderBy('sort', 'asc')]. *)
Definition sort_le (d1 d2 : Doc.t) : Prop :=
  match sort_key d1, sort_key d2 with
  | Some q1, Some q2 => Qle q1 q2
  | _, _ => False
  end.

(** ** Sample data *)

Definition sample_doc (i : string) (pos : nat) : Doc.t :=
  Doc.mk i (<[ "sort" := VNum (of_nat pos) ]>
            (<[ "completed" := VBool false ]>
            (<[ "room" := VStr "Kuhinja" ]>
            {[ "name" := VStr i ]}))).

Definition legacy_doc : Doc.t :=
  Doc.mk "L" (<[ "link" := VStr "https://example.com/milk" ]>
              (<[ "model" := VNull ]>
              (<[ "price" := VStr "12" ]>
              {[ "title" := VStr "Milk" ]}))).

Definition initial : State :=
  {| todos := []; selectedCollection := "todos";
     name := ""; room := ""; model := ""; price := ""; imgUrl := ""; link := "";
     error := None; modalOpen := false; editId := None; draggingId := None |}.

(** Items A, B, C at positions 0, 1, 2, as delivered by a snapshot. *)
Definition abc_docs : list Doc.t :=
  [sample_doc "A" 0; sample_doc "B" 1; sample_doc "C" 2].

Definition abc : State := onSnapshot abc_docs initial.

(** The form filled in by the user. *)
Definition fill (n rm m p img lnk : string) (edit : option string) (st : State) : State :=
  {| todos := todos st; selectedCollection := selectedCollection st;
     name := n; room := rm; model := m; price := p; imgUrl := img; link := lnk;
     error := error st; modalOpen := true; editId := edit;
     draggingId := draggingId st |}.

(** Three items in the list and the add form filled in with a title and a
    category. *)
Definition adding_milk : State := fill "Milk" "Kuhinja" "" "" "" "" None abc.

(** Item B under edit, its price field left empty. *)
Definition editing_B : State :=
  fill "B" "Kuhinja" "V15" "" "https://example.com/b.png" "" (Some "B") abc.

(** The add form with a price that is not a number. *)
Definition bad_price : State := fill "Milk" "Kuhinja" "" "abc" "" "" None abc.

(** The add form with a price that starts with a number. *)
Definition price_with_unit : State := fill "Milk" "Kuhinja" "" "12 din" "" "" None abc.

(** The add form with a price written with a decimal comma. *)
Definition price_with_comma : State := fill "Milk" "Kuhinja" "" "299,99" "" "" None abc.

(** ** A platform instance for closed examples *)

(** An instance of [Platform] on plain ASCII input: [trim] strips blanks,
    tabs and line ends, [parseFloat] reads the longest prefix that is a
    signed decimal literal without exponent, and [URL_parses] accepts the
    [http://] and [https://] addresses written with letters, digits and the
    characters [. / - _]. *)
Module Reference.

Definition is_space (a : ascii) : bool :=
  match a with
  | " " | "009" | "010" | "011" | "012" | "013" => true
  | _ => false
  end%char.

Fixpoint trimStart (s : string) : string :=
  match s with
  | String a s' => if is_space a then trimStart s' else s
  | EmptyString => s
  end.

Fixpoint trimEnd (s : string) : string :=
  match s with
  | String a s' =>
      match trimEnd s' with
      | EmptyString => if is_space a then EmptyString else String a EmptyString
      | r => String a r
      end
  | EmptyString => s
  end.

Definition digit (a : ascii) : option Z :=
  let n := Z.of_nat (nat_of_ascii a) in
  if (48 <=? n) && (n <=? 57) then Some (n - 48) else None.

(** The digits at the head of [s]: their value after [acc], how many
    there are, and the rest of [s]. *)
Fixpoint digits (s : string) (acc : Z) (count : nat) : Z * nat * string :=
  match s with
  | String a s' =>
      match digit a with
      | Some d => digits s' (10 * acc + d) (S count)
      | None => (acc, count, s)
      end
  | EmptyString => (acc, count, s)
  end.

Definition unsigned_decimal (s : string) : number :=
  let '(int, ni, rest) := digits s 0 0 in
  let '(mant, nf) :=
    match rest with
    | String "." rest' =>
        let '(m, nf, _) := digits rest' int 0 in (m, nf)
    | _ => (int, 0%nat)
    end in
  if (ni + nf =? 0)%nat then NaN
  else Fin (Qmake mant (Z.to_pos (10 ^ Z.of_nat nf))).

Definition negate (n : number) : number :=
  match n with
  | Fin q => Fin (Qmake (- Qnum q) (Qden q))
  | Infinity b => Infinity (negb b)
  | NaN => NaN
  end.

Definition parse (s : string) : number :=
  match trimStart s with
  | String "-" s' => negate (unsigned_decimal s')
  | String "+" s' => unsigned_decimal s'
  | s' => unsigned_decimal s'
  end.

Definition url_char (a : ascii) : bool :=
  let n := nat_of_ascii a in
  ((48 <=? n) && (n <=? 57) || (65 <=? n) && (n <=? 90)
   || (97 <=? n) && (n <=? 122))%nat.

Fixpoint url_rest (s : string) : bool :=
  match s with
  | String a s' =>
      (url_char a || bool_decide (a ∈ ["."; "/"; "-"; "_"]%char)) && url_rest s'
  | EmptyString => true
  end.

Definition after_scheme (s : string) : bool :=
  match s with
  | String a s' => url_char a && url_rest s'
  | EmptyString => false
  end.

Definition url (s : string) : bool :=
  match s with
  | String "h" (String "t" (String "t" (String "p" (String ":" (String "/" (String "/" r)))))) =>
      after_scheme r
  | String "h" (String "t" (String "t" (String "p" (String "s" (String ":" (String "/" (String "/" r))))))) =>
      after_scheme r
  | _ => false
  end.

Definition platform : Platform :=
  {| trim s := trimEnd (trimStart s); parseFloat := parse; URL_parses := url |}.

End Reference.
(** * The rest of the component *)

(** ** The displayed list *)

(** [type Filter = 'all' | 'active' | 'completed'] *)
Module Filter.
Inductive t := all | active | completed.
End Filter.

(** [t.room === roomFilter], the room of an item being a stored value. *)
Definition in_room (roomFilter : string) (t : Todo.t) : bool :=
  match Todo.room t with
  | VStr s => String.eqb s roomFilter
  | _ => false
  end.

(** The [useMemo] that computes [filtered] from [todos], [filter] and
    [roomFilter]. *)
Definition filtered (todos : list Todo.t) (filter : Filter.t) (roomFilter : string)
  : list Todo.t :=
  let result := todos in
  let result :=
    match filter with
    | Filter.active => List.filter (λ t, negb (Todo.completed t)) result
    | Filter.completed => List.filter (λ t, Todo.completed t) result
    | Filter.all => result
    end in
  if negb (String.eqb roomFilter "all")
  then List.filter (in_room roomFilter) result
  else result.

(** An item passes the status filter, the room filter. *)
Definition passes_status (filter : Filter.t) (t : Todo.t) : bool :=
  match filter with
  | Filter.all => true
  | Filter.active => negb (Todo.completed t)
  | Filter.completed => Todo.completed t
  end.

Definition passes_room (roomFilter : string) (t : Todo.t) : bool :=
  String.eqb roomFilter "all" || in_room roomFilter t.

(** [total], [activeCount] and [completedCount], computed from [filtered]. *)
Definition total (filtered : list Todo.t) : Z := Z.of_nat (length filtered).

Definition activeCount (filtered : list Todo.t) : Z :=
  Z.of_nat (length (List.filter (λ t, negb (Todo.completed t)) filtered)).

Definition completedCount (filtered : list Todo.t) : Z :=
  total filtered - activeCount filtered.

(** ** The add form *)



(** The updates a request commits as a batch, if it is one. *)
Definition batch_updates (r : Request) : list (string * string * gmap string fieldValue) :=
  match op r with
  | batchCommit updates => updates
  | _ => []
  end.

(** ** The component backed by local storage *)

(** The earlier [App], which keeps its list in [localStorage] and changes it
    in place with [setTodos(prev => ...)]. *)
Module LocalApp.

(** [type Todo] *)
Record Todo := { id : string; title : string; completed : bool }.

(** The cells [todos] and [input]. *)
Record State := { todos : list Todo; input : string }.

(** [filtered], from [todos] and [filter]. *)
Definition filtered (todos : list Todo) (filter : Filter.t) : list Todo :=
  match filter with
  | Filter.active => List.filter (λ t, negb (completed t)) todos
  | Filter.completed => List.filter (λ t, completed t) todos
  | Filter.all => todos
  end.

(** [addTodo(title)]; [uuid] is what [crypto.randomUUID()] returns. *)
Definition addTodo `{Platform} (uuid : string) (title : string) (st : State) : State :=
  let trimmed := trim title in
  if negb (nonempty trimmed) then st
  else {| todos := {| id := uuid; title := trimmed; completed := false |} :: todos st;
          input := "" |}.

(** The updater of [toggle(id)]. *)
Definition toggle (i : string) (prev : list Todo) : list Todo :=
  (λ t, if String.eqb (id t) i
        then {| id := id t; title := title t; completed := negb (completed t) |}
        else t) <$> prev.

(** The updater of [remove(id)]. *)
Definition remove (i : string) (prev : list Todo) : list Todo :=
  List.filter (λ t, negb (String.eqb (id t) i)) prev.

(** The updater of [rename(id, title)]. *)
Definition rename (i : string) (title' : string) (prev : list Todo) : list Todo :=
  (λ t, if String.eqb (id t) i
        then {| id := id t; title := title'; completed := completed t |}
        else t) <$> prev.

(** The updater of [clearCompleted()]. *)
Definition clearCompleted (prev : list Todo) : list Todo :=
  List.filter (λ t, negb (completed t)) prev.

(** The updater in [loadSample()], [data] being the [todos] of the
    response: the ids seen are those of [prev], and each item of [data] whose
    id is not among them is pushed. *)
Definition mergeSample (data prev : list Todo) : list Todo :=
  let seen : gset string := list_to_set (id <$> prev) in
  foldl (λ merged t, if decide (id t ∈ seen) then merged else merged ++ [t]) prev data.

(** The submit handler of the rename form in [TodoItem]:
    [onRename(todo.id, title.trim() || todo.title)]. *)
Definition submitRename `{Platform} (todo : Todo) (title' : string) (prev : list Todo)
  : list Todo :=
  let trimmed := trim title' in
  rename (id todo) (if nonempty trimmed then trimmed else title todo) prev.

End LocalApp.

(** * Properties *)

(** ** Arrays *)

Section Arrays.
Context {A : Type}.
Implicit Types (p : A → bool) (l : list A).

Lemma findIndex_from_spec p l i :
  (findIndex_from p l i = -1 ∧ ∀ x, x ∈ l → p x = false) ∨
  ∃ (k : nat) x,
    findIndex_from p l i = i + Z.of_nat k ∧ l !! k = Some x ∧ p x = true ∧
    ∀ j y, (j < k)%nat → l !! j = Some y → p y = false.
Proof.
  revert i. induction l as [|a l IH]; intros i; simpl.
  - left. split; [done|]. intros x Hx. by apply elem_of_nil in Hx.
  - destruct (p a) eqn:Hpa.
    + right. exists 0%nat, a. repeat split; [lia|done|lia].
    + destruct (IH (i + 1)) as [[Hn Hall] | (k & x & Hk & Hx & Hpx & Hlt)].
      * left. split; [done|]. intros x [->|Hx]%elem_of_cons; auto.
      * right. exists (S k), x. repeat split; [lia|done|done|].
        intros [|j] y Hj Hy; simpl in Hy; [congruence|].
        apply (Hlt j); [lia|done].
Qed.

Lemma findIndex_found p l (k : nat) :
  findIndex p l = Z.of_nat k →
  ∃ x, l !! k = Some x ∧ p x = true ∧
       ∀ j y, (j < k)%nat → l !! j = Some y → p y = false.
Proof.
  unfold findIndex. intros Hk.
  destruct (findIndex_from_spec p l 0) as [[Hn _] | (k' & x & Hk' & Hx)].
  - lia.
  - assert (k' = k) as -> by lia. eauto.
Qed.

Lemma findIndex_absent p l :
  findIndex p l < 0 ↔ ∀ x, x ∈ l → p x = false.
Proof.
  unfold findIndex.
  destruct (findIndex_from_spec p l 0) as [[Hn Hall] | (k & x & Hk & Hx & Hpx & _)].
  - split; [done | lia].
  - split; [lia|]. intros Hall.
    rewrite (Hall x) in Hpx; [done|]. by eapply list_elem_of_lookup_2.
Qed.

Lemma findIndex_range p l : -1 ≤ findIndex p l < Z.of_nat (length l).
Proof.
  unfold findIndex.
  destruct (findIndex_from_spec p l 0) as [[Hn _] | (k & x & Hk & Hx & _)].
  - lia.
  - apply lookup_lt_Some in Hx. lia.
Qed.

Lemma findIndex_first p l (k : nat) x :
  l !! k = Some x → p x = true →
  (∀ j y, (j < k)%nat → l !! j = Some y → p y = false) →
  findIndex p l = Z.of_nat k.
Proof.
  intros Hx Hpx Hlt. unfold findIndex.
  destruct (findIndex_from_spec p l 0) as [[_ Hall] | (k' & x' & -> & Hx' & Hpx' & Hlt')].
  - rewrite (Hall x) in Hpx; [done|]. by eapply list_elem_of_lookup_2.
  - destruct (Nat.lt_trichotomy k k') as [Hc | [-> | Hc]]; [|done|].
    + by rewrite (Hlt' _ _ Hc Hx) in Hpx.
    + by rewrite (Hlt _ _ Hc Hx') in Hpx'.
Qed.

(** Removing one element at a valid index. *)
Lemma splice_remove l (s : nat) x :
  l !! s = Some x →
  splice l (Z.of_nat s) 1 [] = ([x], delete s l).
Proof.
  intros Hx. pose proof (lookup_lt_Some _ _ _ Hx) as Hlt.
  unfold splice. cbv zeta.
  destruct (Z.ltb_spec (Z.of_nat s) 0) as [?|_]; [lia|].
  replace (Z.min (Z.of_nat s) (Z.of_nat (length l))) with (Z.of_nat s) by lia.
  replace (Z.min (Z.max 1 0) (Z.of_nat (length l) - Z.of_nat s)) with 1 by lia.
  replace (Z.of_nat s + 1) with (Z.of_nat (S s)) by lia.
  rewrite !Nat2Z.id. change (Z.to_nat 1) with 1%nat.
  f_equal.
  - rewrite (drop_S _ _ _ Hx). simpl. by rewrite take_0.
  - simpl. by rewrite delete_take_drop.
Qed.

(** Inserting one element at an index up to the length. *)
Lemma splice_insert l (d : nat) x :
  (d ≤ length l)%nat →
  splice l (Z.of_nat d) 0 [x] = ([], take d l ++ x :: drop d l).
Proof.
  intros Hd. unfold splice. cbv zeta.
  destruct (Z.ltb_spec (Z.of_nat d) 0) as [?|_]; [lia|].
  replace (Z.min (Z.of_nat d) (Z.of_nat (length l))) with (Z.of_nat d) by lia.
  replace (Z.min (Z.max 0 0) (Z.of_nat (length l) - Z.of_nat d)) with 0 by lia.
  rewrite Z.add_0_r, !Nat2Z.id. simpl. by rewrite take_0.
Qed.
End Arrays.

(** ** Moving one item *)

Section Move.
Context {A : Type}.
Implicit Types (l : list A).

Lemma moveItem_eq l s d x :
  l !! s = Some x →
  moveItem s d l = take d (delete s l) ++ x :: drop d (delete s l).
Proof. intros Hx. unfold moveItem. by rewrite Hx. Qed.

Lemma moveItem_length l s d :
  length (moveItem s d l) = length l.
Proof.
  unfold moveItem. destruct (l !! s) as [x|] eqn:Hx; [|done].
  apply lookup_lt_Some in Hx.
  rewrite length_app, length_cons, length_take, length_drop, length_delete by eauto using lookup_lt_is_Some_2.
  lia.
Qed.

Lemma moveItem_lookup l s d x i :
  l !! s = Some x → (d < length l)%nat →
  moveItem s d l !! i =
    if decide (i = d) then Some x
    else if decide (i < d)%nat
         then (if decide (i < s)%nat then l !! i else l !! S i)
         else (if decide (i - 1 < s)%nat then l !! (i - 1)%nat else l !! i).
Proof.
  intros Hx Hd. pose proof (lookup_lt_Some _ _ _ Hx) as Hs.
  rewrite (moveItem_eq _ _ _ _ Hx).
  assert (length (take d (delete s l)) = d) as Hlen.
  { rewrite length_take, length_delete by eauto using lookup_lt_is_Some_2. lia. }
  destruct (decide (i = d)) as [->|Hne].
  - rewrite lookup_app_r by lia. rewrite Hlen, Nat.sub_diag. done.
  - destruct (decide (i < d)%nat) as [Hlt|Hge].
    + rewrite lookup_app_l by lia. rewrite lookup_take_lt by done.
      destruct (decide (i < s)%nat).
      * by rewrite list_lookup_delete_lt.
      * by rewrite list_lookup_delete_ge by lia.
    + rewrite lookup_app_r by lia. rewrite Hlen.
      destruct (i - d)%nat as [|k] eqn:Hk; [lia|]. simpl.
      rewrite lookup_drop. replace (d + k)%nat with (i - 1)%nat by lia.
      destruct (decide (i - 1 < s)%nat).
      * by rewrite list_lookup_delete_lt.
      * rewrite list_lookup_delete_ge by lia. f_equal. lia.
Qed.

(** The moved item lands on the destination index. *)
Lemma moveItem_at_destination l s d x :
  l !! s = Some x → (d < length l)%nat → moveItem s d l !! d = Some x.
Proof. intros Hx Hd. rewrite (moveItem_lookup _ _ _ _ _ Hx Hd). by case_decide. Qed.

(** Items outside the span between source and destination stay put. *)
Lemma moveItem_outside l s d i :
  (s < length l)%nat → (d < length l)%nat →
  (i < s `min` d ∨ s `max` d < i)%nat → moveItem s d l !! i = l !! i.
Proof.
  intros [x Hx]%lookup_lt_is_Some_2 Hd Hi.
  rewrite (moveItem_lookup _ _ _ _ _ Hx Hd).
  repeat case_decide; try done; lia.
Qed.

(** Moving down the list: the items in between shift up by one. *)
Lemma moveItem_between_down l s d i :
  (s < length l)%nat → (d < length l)%nat →
  (s ≤ i < d)%nat → moveItem s d l !! i = l !! S i.
Proof.
  intros [x Hx]%lookup_lt_is_Some_2 Hd Hi.
  rewrite (moveItem_lookup _ _ _ _ _ Hx Hd).
  repeat case_decide; try done; lia.
Qed.

(** Moving up the list: the items in between shift down by one. *)
Lemma moveItem_between_up l s d i :
  (s < length l)%nat → (d < length l)%nat →
  (d < i ≤ s)%nat → moveItem s d l !! i = l !! (i - 1)%nat.
Proof.
  intros [x Hx]%lookup_lt_is_Some_2 Hd Hi.
  rewrite (moveItem_lookup _ _ _ _ _ Hx Hd).
  repeat case_decide; try done; lia.
Qed.

Lemma moveItem_same l d : moveItem d d l = l.
Proof.
  destruct (l !! d) as [x|] eqn:Hx; [|unfold moveItem; by rewrite Hx].
  pose proof (lookup_lt_Some _ _ _ Hx) as Hlt.
  apply list_eq. intros i. rewrite (moveItem_lookup _ _ _ _ _ Hx Hlt).
  repeat case_decide; subst; try done; lia.
Qed.

Lemma moveItem_Permutation l s d : moveItem s d l ≡ₚ l.
Proof.
  unfold moveItem. destruct (l !! s) as [x|] eqn:Hx; [|done].
  rewrite <- Permutation_middle, take_drop.
  rewrite <- (take_drop_middle _ _ _ Hx) at 2.
  rewrite delete_take_drop. by rewrite <- Permutation_middle.
Qed.
End Move.

(** ** Drag and drop *)

Lemma nonempty_true (s : string) : nonempty s = true ↔ s ≠ "".
Proof. destruct s; simpl; split; congruence. Qed.

Lemma nonempty_false (s : string) : nonempty s = false ↔ s = "".
Proof. destruct s; simpl; split; congruence. Qed.

Lemma has_id_true (i : string) (t : Todo.t) : has_id i t = true ↔ Todo.id t = i.
Proof. unfold has_id. apply String.eqb_eq. Qed.

Lemma has_id_false (i : string) (t : Todo.t) : has_id i t = false ↔ Todo.id t ≠ i.
Proof. unfold has_id. apply String.eqb_neq. Qed.

(** With unique ids, [findIndex] by id returns the index of the item. *)
Lemma findIndex_unique (l : list Todo.t) (k : nat) (t : Todo.t) :
  NoDup (Todo.id <$> l) → l !! k = Some t →
  findIndex (has_id (Todo.id t)) l = Z.of_nat k.
Proof.
  intros Hnodup Ht. apply findIndex_first with t; [done|by apply has_id_true|].
  intros j y Hj Hy. apply has_id_false. intros Hid.
  assert (j = k); [|lia].
  apply (NoDup_lookup _ j k (Todo.id t) Hnodup).
  - rewrite list_lookup_fmap, Hy. simpl. congruence.
  - by rewrite list_lookup_fmap, Ht.
Qed.

(** On a drop that passes both guards, the handler computes [moveItem]. *)
Lemma onDropCard_moveItem (st : State) (dragging targetId : string) (s d : nat) :
  draggingId st = Some dragging → dragging ≠ "" → dragging ≠ targetId →
  findIndex (has_id dragging) (todos st) = Z.of_nat s →
  findIndex (has_id targetId) (todos st) = Z.of_nat d →
  onDropCard targetId st =
    (setDraggingId None (setTodos (moveItem s d (todos st)) st),
     [ commitOrder (selectedCollection st) (moveItem s d (todos st)) ]).
Proof.
  intros Hdrag Hne Hdiff Hs Hd. unfold onDropCard. rewrite Hdrag.
  apply nonempty_true in Hne. rewrite Hne.
  apply String.eqb_neq in Hdiff. rewrite Hdiff, Hs, Hd.
  destruct (Z.ltb_spec (Z.of_nat s) 0); [lia|].
  destruct (Z.ltb_spec (Z.of_nat d) 0); [lia|]. cbn [negb orb]. cbv zeta.
  destruct (findIndex_found _ _ _ Hs) as (x & Hx & _).
  destruct (findIndex_found _ _ _ Hd) as (y & Hy & _).
  rewrite (splice_remove _ _ _ Hx).
  rewrite splice_insert.
  - by rewrite (moveItem_eq _ _ _ _ Hx).
  - apply lookup_lt_Some in Hy. rewrite length_delete by eauto. lia.
Qed.

Lemma sortUpdates_lookup (coll : string) (l : list Todo.t) (i : nat) (t : Todo.t) :
  l !! i = Some t →
  sortUpdates coll l !! i = Some (coll, Todo.id t, {[ "sort" := Plain (VNum (of_nat i)) ]}).
Proof. intros Ht. unfold sortUpdates. by rewrite list_lookup_imap, Ht. Qed.

Lemma sortUpdates_ids (coll : string) (l : list Todo.t) :
  updated_ids (commitOrder coll l) = Todo.id <$> l.
Proof.
  unfold updated_ids, commitOrder, sortUpdates. simpl.
  apply list_eq. intros i.
  rewrite !list_lookup_fmap, list_lookup_imap. by destruct (l !! i).
Qed.

(** C1.  A drag gesture that moves the item at source index [s] to
    destination index [d] yields the list with that item removed from [s] and
    reinserted at [d]: the moved item sits at [d], the items between the two
    indices shift by one, the others stay.  The handler stores that list and
    issues one request, a batch commit, whose updates are, for the item at
    every index [i] of the new order and for no other, the write
    [sort := i] to that item's document. *)
Theorem reorder_moves_item_and_renumbers
    (st : State) (dragging targetId : string) (s d : nat) :
  draggingId st = Some dragging → dragging ≠ "" → dragging ≠ targetId →
  findIndex (has_id dragging) (todos st) = Z.of_nat s →
  findIndex (has_id targetId) (todos st) = Z.of_nat d →
  ∃ moved newList updates,
    todos st !! s = Some moved ∧
    newList = take d (delete s (todos st)) ++ moved :: drop d (delete s (todos st)) ∧
    onDropCard targetId st =
      (setDraggingId None (setTodos newList st),
       [ {| op := batchCommit updates;
            onFulfilled := nothing;
            onRejected := warn "save order failed" |} ]) ∧
    length newList = length (todos st) ∧
    newList !! d = Some moved ∧
    (∀ i, (i < s `min` d ∨ s `max` d < i)%nat → newList !! i = todos st !! i) ∧
    (∀ i, (s ≤ i < d)%nat → newList !! i = todos st !! S i) ∧
    (∀ i, (d < i ≤ s)%nat → newList !! i = todos st !! (i - 1)%nat) ∧
    length updates = length newList ∧
    ∀ i t, newList !! i = Some t →
      updates !! i =
        Some (selectedCollection st, Todo.id t, {[ "sort" := Plain (VNum (of_nat i)) ]}).
Proof.
  intros Hdrag Hne Hdiff Hs Hd.
  destruct (findIndex_found _ _ _ Hs) as (moved & Hmoved & _).
  destruct (findIndex_found _ _ _ Hd) as (y & Hy & _).
  pose proof (lookup_lt_Some _ _ _ Hmoved) as Hslt.
  pose proof (lookup_lt_Some _ _ _ Hy) as Hdlt.
  exists moved, (moveItem s d (todos st)),
    (sortUpdates (selectedCollection st) (moveItem s d (todos st))).
  split; [done|]. split; [by apply moveItem_eq|].
  split; [by apply onDropCard_moveItem with dragging|].
  split; [apply moveItem_length|].
  split; [by apply moveItem_at_destination|].
  split; [intros i Hi; by apply moveItem_outside|].
  split; [intros i Hi; by apply moveItem_between_down|].
  split; [intros i Hi; by apply moveItem_between_up|].
  split; [apply length_imap|].
  intros i t Ht. by apply sortUpdates_lookup.
Qed.

(** The scenario of the specification: A, B, C at positions 0, 1, 2; C is
    dragged onto the card at index 0. *)
Example reorder_scenario :
  dragAndDrop "C" "A" abc =
    (setTodos (docToTodo <$> [sample_doc "C" 2; sample_doc "A" 0; sample_doc "B" 1]) abc,
     [ {| op := batchCommit
                  [ ("todos", "C", {[ "sort" := Plain (VNum (of_nat 0)) ]});
                    ("todos", "A", {[ "sort" := Plain (VNum (of_nat 1)) ]});
                    ("todos", "B", {[ "sort" := Plain (VNum (of_nat 2)) ]}) ];
          onFulfilled := nothing;
          onRejected := warn "save order failed" |} ]).
Proof. reflexivity. Qed.

Lemma reorder_moves_item_and_renumbers_witness :
  let st := onDragStartCard "C" abc in
  draggingId st = Some "C" ∧ "C" ≠ "" ∧ "C" ≠ "A" ∧
  findIndex (has_id "C") (todos st) = Z.of_nat 2 ∧
  findIndex (has_id "A") (todos st) = Z.of_nat 0 ∧
  ∃ moved newList updates,
    todos st !! 2%nat = Some moved ∧
    newList = take 0 (delete 2%nat (todos st)) ++ moved :: drop 0 (delete 2%nat (todos st)) ∧
    onDropCard "A" st =
      (setDraggingId None (setTodos newList st),
       [ {| op := batchCommit updates;
            onFulfilled := nothing;
            onRejected := warn "save order failed" |} ]) ∧
    length newList = length (todos st) ∧
    newList !! 0%nat = Some moved ∧
    (∀ i, (i < 2 `min` 0 ∨ 2 `max` 0 < i)%nat → newList !! i = todos st !! i) ∧
    (∀ i, (2 ≤ i < 0)%nat → newList !! i = todos st !! S i) ∧
    (∀ i, (0 < i ≤ 2)%nat → newList !! i = todos st !! (i - 1)%nat) ∧
    length updates = length newList ∧
    ∀ i t, newList !! i = Some t →
      updates !! i =
        Some (selectedCollection st, Todo.id t, {[ "sort" := Plain (VNum (of_nat i)) ]}).
Proof.
  intros st.
  split; [reflexivity|]. split; [discriminate|]. split; [discriminate|].
  split; [reflexivity|]. split; [reflexivity|].
  apply (reorder_moves_item_and_renumbers st "C" "A" 2 0);
    [reflexivity | discriminate | discriminate | reflexivity | reflexivity].
Defined.

(** The two guards of [onDropCard]. *)
Lemma onDropCard_guards (st : State) (targetId : string) :
  draggingId st = Some targetId
  ∨ truthy_id (draggingId st) = false
  ∨ (∃ dragging, draggingId st = Some dragging ∧
                 ∀ t, t ∈ todos st → Todo.id t ≠ dragging)
  ∨ (∀ t, t ∈ todos st → Todo.id t ≠ targetId) →
  onDropCard targetId st = (st, []).
Proof.
  intros Hcase. unfold onDropCard.
  destruct (draggingId st) as [dragging|] eqn:Hdrag; [|done].
  destruct (nonempty dragging) eqn:Hne; [|done].
  destruct (String.eqb dragging targetId) eqn:Heq; [done|].
  cbn [negb orb].
  assert (findIndex (has_id dragging) (todos st) < 0
          ∨ findIndex (has_id targetId) (todos st) < 0) as Hneg.
  { destruct Hcase as [Hself | [Hnone | [(x & Hx & Hsrc) | Hdst]]].
    - injection Hself as ->. by rewrite String.eqb_refl in Heq.
    - simpl in Hnone. congruence.
    - injection Hx as <-. left. apply findIndex_absent.
      intros t Ht. by apply has_id_false, Hsrc.
    - right. apply findIndex_absent.
      intros t Ht. by apply has_id_false, Hdst. }
  destruct (Z.ltb_spec (findIndex (has_id dragging) (todos st)) 0); [done|].
  destruct (Z.ltb_spec (findIndex (has_id targetId) (todos st)) 0); [done|].
  lia.
Qed.

(** Every drop is one of the two: a guard fires, or an item is moved.  The
    branch of [onDropCard] for an empty list of removed elements is never
    taken. *)
Lemma onDropCard_cases (st : State) (targetId : string) :
  onDropCard targetId st = (st, []) ∨
  ∃ dragging (s d : nat),
    draggingId st = Some dragging ∧ dragging ≠ "" ∧ dragging ≠ targetId ∧
    findIndex (has_id dragging) (todos st) = Z.of_nat s ∧
    findIndex (has_id targetId) (todos st) = Z.of_nat d ∧
    onDropCard targetId st =
      (setDraggingId None (setTodos (moveItem s d (todos st)) st),
       [ commitOrder (selectedCollection st) (moveItem s d (todos st)) ]).
Proof.
  destruct (draggingId st) as [dragging|] eqn:Hdrag;
    [|left; apply onDropCard_guards; right; left; by rewrite Hdrag].
  destruct (decide (dragging = "")) as [->|Hne];
    [left; apply onDropCard_guards; right; left; by rewrite Hdrag|].
  destruct (decide (dragging = targetId)) as [->|Hdiff];
    [left; by apply onDropCard_guards; left|].
  destruct (Z.neg_nonneg_cases (findIndex (has_id dragging) (todos st))) as [Hs|Hs].
  { left. apply onDropCard_guards. right. right. left. exists dragging.
    split; [done|]. intros t Ht. apply has_id_false. revert t Ht.
    by apply findIndex_absent. }
  destruct (Z.neg_nonneg_cases (findIndex (has_id targetId) (todos st))) as [Hd|Hd].
  { left. apply onDropCard_guards. do 3 right.
    intros t Ht. apply has_id_false. revert t Ht. by apply findIndex_absent. }
  right. exists dragging, (Z.to_nat (findIndex (has_id dragging) (todos st))),
    (Z.to_nat (findIndex (has_id targetId) (todos st))).
  rewrite !Z2Nat.id by done. repeat split; try done.
  apply onDropCard_moveItem with dragging; try done; by rewrite Z2Nat.id.
Qed.

(** C9.  A drop is a no-op, leaving the whole state (so the Local View and
    its order) as it was and issuing no request, when the item is dropped on
    itself, when no drag is in progress, and when the dragged or the target
    id is not in the current list. *)
Theorem drop_is_noop (st : State) (targetId : string) :
  draggingId st = Some targetId
  ∨ truthy_id (draggingId st) = false
  ∨ (∃ dragging, draggingId st = Some dragging ∧
                 ∀ t, t ∈ todos st → Todo.id t ≠ dragging)
  ∨ (∀ t, t ∈ todos st → Todo.id t ≠ targetId) →
  onDropCard targetId st = (st, []) ∧
  todos (onDropCard targetId st).1 = todos st ∧
  (onDropCard targetId st).2 = [].
Proof.
  intros Hcase. by rewrite (onDropCard_guards st targetId Hcase).
Qed.

Lemma drop_is_noop_witness :
  let st := onDragStartCard "B" abc in
  (draggingId st = Some "B"
   ∨ truthy_id (draggingId st) = false
   ∨ (∃ dragging, draggingId st = Some dragging ∧
                  ∀ t, t ∈ todos st → Todo.id t ≠ dragging)
   ∨ (∀ t, t ∈ todos st → Todo.id t ≠ "B")) ∧
  onDropCard "B" st = (st, []) ∧
  todos (onDropCard "B" st).1 = todos st ∧
  (onDropCard "B" st).2 = [].
Proof.
  intros st. split.
  - left. reflexivity.
  - apply (drop_is_noop st "B"). left. reflexivity.
Defined.

(** Each of the four cases on the sample list. *)
Example drop_on_itself : dragAndDrop "B" "B" abc = (onDragStartCard "B" abc, []).
Proof. reflexivity. Qed.

Example drop_without_drag : onDropCard "B" abc = (abc, []).
Proof. reflexivity. Qed.

Example drop_of_unknown_item : dragAndDrop "Z" "B" abc = (onDragStartCard "Z" abc, []).
Proof. reflexivity. Qed.

Example drop_on_unknown_target : dragAndDrop "B" "Z" abc = (onDragStartCard "B" abc, []).
Proof. reflexivity. Qed.

(** C2, as stated, fails: with A, B, C in the list and C dropped on B, the
    batch writes a position for A, whose position is 0 before and after. *)
Lemma batch_not_minimal :
  let st := onDragStartCard "C" abc in
  ∃ st' r,
    onDropCard "B" st = (st', [r]) ∧
    ¬ writes_exactly_changed (todos st) (todos st') (updated_ids r).
Proof.
  intros st.
  pose (newList := docToTodo <$> [sample_doc "A" 0; sample_doc "C" 2; sample_doc "B" 1]).
  exists (setTodos newList abc), (commitOrder "todos" newList).
  split; [reflexivity|].
  intros Hmin.
  destruct (Hmin (docToTodo (sample_doc "A" 0))) as [Hchanged _].
  - apply list_elem_of_here.
  - apply Hchanged; [|reflexivity]. apply list_elem_of_here.
Qed.

(** C2, amended.  The batch of a reorder holds one position write for each
    item of the new order, in that order, whether or not the item's position
    changed: the entry at index [i] writes [sort := i] to the document of the
    item at index [i].  So every item of the list is written, the items whose
    position changed among them. *)
Theorem batch_writes_every_item
    (st : State) (dragging targetId : string) (s d : nat) :
  draggingId st = Some dragging → dragging ≠ "" → dragging ≠ targetId →
  findIndex (has_id dragging) (todos st) = Z.of_nat s →
  findIndex (has_id targetId) (todos st) = Z.of_nat d →
  ∃ st' r updates,
    onDropCard targetId st = (st', [r]) ∧
    op r = batchCommit updates ∧
    length updates = length (todos st') ∧
    (∀ i t, todos st' !! i = Some t →
       updates !! i =
         Some (selectedCollection st, Todo.id t, {[ "sort" := Plain (VNum (of_nat i)) ]})) ∧
    updated_ids r = Todo.id <$> todos st' ∧
    todos st' ≡ₚ todos st ∧
    (∀ t, t ∈ todos st →
       ∃ i, updates !! i =
              Some (selectedCollection st, Todo.id t, {[ "sort" := Plain (VNum (of_nat i)) ]})) ∧
    (∀ t, t ∈ todos st → Todo.id t ∈ updated_ids r) ∧
    (∀ t, t ∈ todos st' →
       position (Todo.id t) (todos st) ≠ position (Todo.id t) (todos st') →
       Todo.id t ∈ updated_ids r).
Proof.
  intros Hdrag Hne Hdiff Hs Hd.
  eexists _, _, _. split; [by apply onDropCard_moveItem with dragging|].
  cbn [todos setTodos setDraggingId].
  split; [done|].
  split; [apply length_imap|].
  split; [intros i t Ht; by apply sortUpdates_lookup|].
  rewrite sortUpdates_ids.
  split; [done|]. split; [apply moveItem_Permutation|].
  split; [|split].
  - intros t Ht. rewrite <- (moveItem_Permutation _ s d) in Ht.
    apply list_elem_of_lookup in Ht as [i Hi].
    exists i. by apply sortUpdates_lookup.
  - intros t Ht. apply list_elem_of_fmap_2.
    by rewrite moveItem_Permutation.
  - intros t Ht _. by apply list_elem_of_fmap_2.
Qed.

Lemma batch_writes_every_item_witness :
  let st := onDragStartCard "C" abc in
  draggingId st = Some "C" ∧ "C" ≠ "" ∧ "C" ≠ "B" ∧
  findIndex (has_id "C") (todos st) = Z.of_nat 2 ∧
  findIndex (has_id "B") (todos st) = Z.of_nat 1 ∧
  ∃ st' r updates,
    onDropCard "B" st = (st', [r]) ∧
    op r = batchCommit updates ∧
    length updates = length (todos st') ∧
    (∀ i t, todos st' !! i = Some t →
       updates !! i =
         Some (selectedCollection st, Todo.id t, {[ "sort" := Plain (VNum (of_nat i)) ]})) ∧
    updated_ids r = Todo.id <$> todos st' ∧
    todos st' ≡ₚ todos st ∧
    (∀ t, t ∈ todos st →
       ∃ i, updates !! i =
              Some (selectedCollection st, Todo.id t, {[ "sort" := Plain (VNum (of_nat i)) ]})) ∧
    (∀ t, t ∈ todos st → Todo.id t ∈ updated_ids r) ∧
    (∀ t, t ∈ todos st' →
       position (Todo.id t) (todos st) ≠ position (Todo.id t) (todos st') →
       Todo.id t ∈ updated_ids r).
Proof.
  intros st.
  split; [reflexivity|]. split; [discriminate|]. split; [discriminate|].
  split; [reflexivity|]. split; [reflexivity|].
  apply (batch_writes_every_item st "C" "B" 2 1);
    [reflexivity | discriminate | discriminate | reflexivity | reflexivity].
Defined.

(** The batch of that reorder: three writes, A's among them. *)
Example batch_of_C_on_B :
  (updated_ids <$> (dragAndDrop "C" "B" abc).2) = [["A"; "C"; "B"]].
Proof. reflexivity. Qed.

(** C5, as stated, fails: the gesture names the dragged card and the target
    card, and the target card has moved after the first drop.  With A, B, C in
    the list, dropping A on B gives B, A, C; dropping A on B again gives back
    A, B, C. *)
Lemma reorder_not_idempotent : ¬ reorder_idempotent "A" "B" abc.
Proof.
  unfold reorder_idempotent. intros Hidem.
  specialize (Hidem "A"). vm_compute in Hidem. discriminate.
Qed.

Example reorder_applied_twice :
  let st1 := (dragAndDrop "A" "B" abc).1 in
  let st2 := (dragAndDrop "A" "B" st1).1 in
  Todo.id <$> todos st1 = ["B"; "A"; "C"] ∧ Todo.id <$> todos st2 = ["A"; "B"; "C"].
Proof. split; reflexivity. Qed.

(** With unique ids the moved item is found at the destination index. *)
Lemma moved_item_position (l : list Todo.t) (dragging : string) (s d : nat) :
  NoDup (Todo.id <$> l) →
  findIndex (has_id dragging) l = Z.of_nat s →
  (d < length l)%nat →
  position dragging (moveItem s d l) = Z.of_nat d.
Proof.
  intros Hnodup Hs Hd.
  destruct (findIndex_found _ _ _ Hs) as (moved & Hmoved & Hid & _).
  apply has_id_true in Hid.
  assert (∀ k y, l !! k = Some y → Todo.id y = dragging → k = s) as Huniq.
  { intros k y Hy Hidy.
    eapply (NoDup_lookup _ k s (Todo.id y) Hnodup).
    - by rewrite list_lookup_fmap, Hy.
    - rewrite list_lookup_fmap, Hmoved. simpl. congruence. }
  unfold position.
  apply findIndex_first with moved.
  - by apply moveItem_at_destination.
  - by apply has_id_true.
  - intros j y Hj Hy. apply has_id_false. intros Hidy.
    rewrite (moveItem_lookup _ _ _ _ _ Hmoved Hd) in Hy.
    repeat case_decide; try lia;
      apply Huniq in Hy; try done; lia.
Qed.

(** C5, amended.  A reorder is idempotent when the gesture is taken as
    "move this item to this destination index": after the drop, the moved
    item is the card at the destination index, so moving it there again is a
    drop of the card on itself, which changes no position and issues no
    batch; with unique ids, source and destination index of that second move
    coincide. *)
Theorem reorder_idempotent_at_destination
    (st : State) (dragging targetId : string) (s d : nat) :
  dragging ≠ "" → dragging ≠ targetId →
  findIndex (has_id dragging) (todos st) = Z.of_nat s →
  findIndex (has_id targetId) (todos st) = Z.of_nat d →
  let st1 := (dragAndDrop dragging targetId st).1 in
  ∃ moved,
    todos st1 !! d = Some moved ∧
    Todo.id moved = dragging ∧
    dragAndDrop dragging (Todo.id moved) st1 = (onDragStartCard dragging st1, []) ∧
    (∀ i, position i (todos (dragAndDrop dragging (Todo.id moved) st1).1)
          = position i (todos st1)) ∧
    (NoDup (Todo.id <$> todos st) → position dragging (todos st1) = Z.of_nat d) ∧
    moveItem d d (todos st1) = todos st1.
Proof.
  intros Hne Hdiff Hs Hd st1.
  destruct (findIndex_found _ _ _ Hs) as (moved & Hmoved & Hid & _).
  destruct (findIndex_found _ _ _ Hd) as (y & Hy & _).
  apply has_id_true in Hid. apply lookup_lt_Some in Hy.
  assert (todos st1 = moveItem s d (todos st)) as Hst1.
  { unfold st1, dragAndDrop.
    by rewrite (onDropCard_moveItem _ dragging targetId s d). }
  assert (dragAndDrop dragging (Todo.id moved) st1 = (onDragStartCard dragging st1, [])) as Hnoop.
  { unfold dragAndDrop. apply onDropCard_guards. left. simpl. congruence. }
  exists moved.
  split; [rewrite Hst1; by apply moveItem_at_destination|].
  split; [done|]. split; [done|].
  split; [by rewrite Hnoop|].
  split; [intros Hnodup; rewrite Hst1; by apply moved_item_position|].
  apply moveItem_same.
Qed.

Lemma reorder_idempotent_at_destination_witness :
  "A" ≠ "" ∧ "A" ≠ "B" ∧
  findIndex (has_id "A") (todos abc) = Z.of_nat 0 ∧
  findIndex (has_id "B") (todos abc) = Z.of_nat 1 ∧
  let st1 := (dragAndDrop "A" "B" abc).1 in
  ∃ moved,
    todos st1 !! 1%nat = Some moved ∧
    Todo.id moved = "A" ∧
    dragAndDrop "A" (Todo.id moved) st1 = (onDragStartCard "A" st1, []) ∧
    (∀ i, position i (todos (dragAndDrop "A" (Todo.id moved) st1).1)
          = position i (todos st1)) ∧
    (NoDup (Todo.id <$> todos abc) → position "A" (todos st1) = Z.of_nat 1) ∧
    moveItem 1 1 (todos st1) = todos st1.
Proof.
  split; [discriminate|]. split; [discriminate|].
  split; [reflexivity|]. split; [reflexivity|].
  apply (reorder_idempotent_at_destination abc "A" "B" 0 1);
    [discriminate | discriminate | reflexivity | reflexivity].
Defined.

(** ** Snapshots *)

Lemma StronglySorted_lookup_lt {A} (R : A → A → Prop) (l : list A) (i j : nat) (a b : A) :
  StronglySorted R l → (i < j)%nat → l !! i = Some a → l !! j = Some b → R a b.
Proof.
  intros Hsorted. revert i j.
  induction Hsorted as [|x l _ IH Hall]; intros i j Hij Ha Hb; [done|].
  destruct j as [|j]; [lia|]. simpl in Hb.
  destruct i as [|i]; simpl in Ha.
  - injection Ha as ->. rewrite List.Forall_forall in Hall.
    apply Hall, list_elem_of_In. by eapply list_elem_of_lookup_2.
  - apply (IH i j); [lia|done|done].
Qed.

(** C4.  Processing a snapshot replaces the Local View by the snapshot's
    documents, mapped one by one and in the snapshot's order, whatever the
    view held before, an optimistic reorder included; when the snapshot
    is in ascending order of position, so is the view. *)
Theorem snapshot_replaces_view (docs : list Doc.t) (st : State) :
  todos (onSnapshot docs st) = docToTodo <$> docs ∧
  Todo.id <$> todos (onSnapshot docs st) = Doc.id <$> docs ∧
  (∀ st', todos (onSnapshot docs st') = todos (onSnapshot docs st)) ∧
  (∀ dragging targetId,
     todos (onSnapshot docs (dragAndDrop dragging targetId st).1) = docToTodo <$> docs) ∧
  (StronglySorted sort_le docs →
   ∀ i j ti tj, (i < j)%nat →
     todos (onSnapshot docs st) !! i = Some ti →
     todos (onSnapshot docs st) !! j = Some tj →
     ∃ di dj, docs !! i = Some di ∧ docs !! j = Some dj ∧
              ti = docToTodo di ∧ tj = docToTodo dj ∧ sort_le di dj).
Proof.
  split; [done|].
  split.
  { simpl. rewrite <- list_fmap_compose. done. }
  split; [done|]. split; [done|].
  intros Hsorted i j ti tj Hij Hi Hj. simpl in Hi, Hj.
  rewrite list_lookup_fmap in Hi, Hj.
  destruct (docs !! i) as [di|] eqn:Hdi; [|done].
  destruct (docs !! j) as [dj|] eqn:Hdj; [|done].
  injection Hi as <-. injection Hj as <-.
  exists di, dj. repeat split.
  by apply (StronglySorted_lookup_lt sort_le docs i j).
Qed.

Lemma abc_docs_sorted : StronglySorted sort_le abc_docs.
Proof.
  unfold abc_docs.
  repeat (apply SSorted_cons; [|repeat apply List.Forall_cons; try apply List.Forall_nil]);
    try apply SSorted_nil; by vm_compute.
Qed.

Lemma snapshot_replaces_view_witness :
  let st := (dragAndDrop "C" "A" abc).1 in
  StronglySorted sort_le abc_docs ∧
  todos (onSnapshot abc_docs st) = docToTodo <$> abc_docs ∧
  Todo.id <$> todos (onSnapshot abc_docs st) = Doc.id <$> abc_docs ∧
  (∀ st', todos (onSnapshot abc_docs st') = todos (onSnapshot abc_docs st)) ∧
  (∀ dragging targetId,
     todos (onSnapshot abc_docs (dragAndDrop dragging targetId st).1) = docToTodo <$> abc_docs) ∧
  (StronglySorted sort_le abc_docs →
   ∀ i j ti tj, (i < j)%nat →
     todos (onSnapshot abc_docs st) !! i = Some ti →
     todos (onSnapshot abc_docs st) !! j = Some tj →
     ∃ di dj, abc_docs !! i = Some di ∧ abc_docs !! j = Some dj ∧
              ti = docToTodo di ∧ tj = docToTodo dj ∧ sort_le di dj).
Proof.
  intros st. split.
  - exact abc_docs_sorted.
  - apply (snapshot_replaces_view abc_docs st).
Defined.

(** A snapshot taken before the reorder was written undoes the optimistic
    order. *)
Example snapshot_after_reorder :
  let st := (dragAndDrop "C" "A" abc).1 in
  Todo.id <$> todos st = ["C"; "A"; "B"] ∧
  Todo.id <$> todos (onSnapshot abc_docs st) = ["A"; "B"; "C"].
Proof. split; reflexivity. Qed.

(** C10.  The mapping of a snapshot document to an item is a total function
    that fills in defaults: the name is the [name] field, else the [title]
    field, else the empty string; [completed] is the stored value coerced to
    a boolean as [!!] does (false when the field is absent or null, the flag
    itself for a boolean, false for the empty string, for zero and for NaN,
    true for every other string, number or object); [price] is kept exactly
    when the stored value is a number; [model], [imgUrl] and [link] are
    absent on the item when absent (or null) in the document, and carried
    over otherwise. *)
Theorem docToTodo_defaults (d : Doc.t) :
  let data := Doc.data d in
  let t := docToTodo d in
  Todo.id t = Doc.id d ∧
  (∀ v, data !! "name" = Some v → v ≠ VNull → Todo.name t = v) ∧
  (missing (data !! "name") →
     ∀ v, data !! "title" = Some v → v ≠ VNull → Todo.name t = v) ∧
  (missing (data !! "name") → missing (data !! "title") → Todo.name t = VStr "") ∧
  (missing (data !! "completed") → Todo.completed t = false) ∧
  (∀ b, data !! "completed" = Some (VBool b) → Todo.completed t = b) ∧
  (∀ s, data !! "completed" = Some (VStr s) →
     (s = "" → Todo.completed t = false) ∧ (s ≠ "" → Todo.completed t = true)) ∧
  (data !! "completed" = Some (VNum NaN) → Todo.completed t = false) ∧
  (∀ neg, data !! "completed" = Some (VNum (Infinity neg)) → Todo.completed t = true) ∧
  (∀ q, data !! "completed" = Some (VNum (Fin q)) →
     (Qeq q 0 → Todo.completed t = false) ∧ (¬ Qeq q 0 → Todo.completed t = true)) ∧
  (data !! "completed" = Some VObject → Todo.completed t = true) ∧
  (∀ n, data !! "price" = Some (VNum n) → Todo.price t = Some n) ∧
  ((∀ n, data !! "price" ≠ Some (VNum n)) → Todo.price t = None) ∧
  (missing (data !! "model") → Todo.model t = None) ∧
  (missing (data !! "imgUrl") → Todo.imgUrl t = None) ∧
  (missing (data !! "link") → Todo.link t = None) ∧
  (∀ v, data !! "model" = Some v → v ≠ VNull → Todo.model t = Some v) ∧
  (∀ v, data !! "imgUrl" = Some v → v ≠ VNull → Todo.imgUrl t = Some v) ∧
  (∀ v, data !! "link" = Some v → v ≠ VNull → Todo.link t = Some v).
Proof.
  intros data t. unfold t, docToTodo. fold data. cbn [Todo.id Todo.name Todo.room
    Todo.model Todo.price Todo.imgUrl Todo.link Todo.completed].
  assert (∀ o v, o = Some v → v ≠ VNull → nullish o None = Some v) as Hsome.
  { intros o v -> Hv. by destruct v. }
  assert (∀ o, missing o → nullish o None = None) as Hnone.
  { by intros o [-> | ->]. }
  split; [done|].
  split; [intros v -> Hv; by destruct v|].
  split; [intros [-> | ->] v -> Hv; by destruct v|].
  split; [by intros [-> | ->] [-> | ->]|].
  split; [by intros [-> | ->]|].
  split; [by intros b ->|].
  split.
  { intros s ->. split; [by intros ->|]. intros Hs. by apply nonempty_true. }
  split; [by intros ->|].
  split; [by intros neg ->|].
  split.
  { intros q ->. simpl. unfold Qeq. simpl.
    destruct (Z.eqb_spec (Qnum q) 0) as [Hz|Hz]; simpl; split; try done; lia. }
  split; [by intros ->|].
  split; [by intros n ->|].
  split.
  { intros Hnot. destruct (data !! "price") as [[| | n | |]|]; try done.
    by destruct (Hnot n). }
  split; [apply Hnone|]. split; [apply Hnone|]. split; [apply Hnone|].
  split; [apply Hsome|]. split; [apply Hsome|]. apply Hsome.
Qed.

Lemma docToTodo_defaults_witness :
  let data := Doc.data legacy_doc in
  let t := docToTodo legacy_doc in
  Todo.id t = Doc.id legacy_doc ∧
  (∀ v, data !! "name" = Some v → v ≠ VNull → Todo.name t = v) ∧
  (missing (data !! "name") →
     ∀ v, data !! "title" = Some v → v ≠ VNull → Todo.name t = v) ∧
  (missing (data !! "name") → missing (data !! "title") → Todo.name t = VStr "") ∧
  (missing (data !! "completed") → Todo.completed t = false) ∧
  (∀ b, data !! "completed" = Some (VBool b) → Todo.completed t = b) ∧
  (∀ s, data !! "completed" = Some (VStr s) →
     (s = "" → Todo.completed t = false) ∧ (s ≠ "" → Todo.completed t = true)) ∧
  (data !! "completed" = Some (VNum NaN) → Todo.completed t = false) ∧
  (∀ neg, data !! "completed" = Some (VNum (Infinity neg)) → Todo.completed t = true) ∧
  (∀ q, data !! "completed" = Some (VNum (Fin q)) →
     (Qeq q 0 → Todo.completed t = false) ∧ (¬ Qeq q 0 → Todo.completed t = true)) ∧
  (data !! "completed" = Some VObject → Todo.completed t = true) ∧
  (∀ n, data !! "price" = Some (VNum n) → Todo.price t = Some n) ∧
  ((∀ n, data !! "price" ≠ Some (VNum n)) → Todo.price t = None) ∧
  (missing (data !! "model") → Todo.model t = None) ∧
  (missing (data !! "imgUrl") → Todo.imgUrl t = None) ∧
  (missing (data !! "link") → Todo.link t = None) ∧
  (∀ v, data !! "model" = Some v → v ≠ VNull → Todo.model t = Some v) ∧
  (∀ v, data !! "imgUrl" = Some v → v ≠ VNull → Todo.imgUrl t = Some v) ∧
  (∀ v, data !! "link" = Some v → v ≠ VNull → Todo.link t = Some v).
Proof. exact (docToTodo_defaults legacy_doc). Defined.

(** A document written by an older client: a [title] instead of a [name],
    the price as text, a null model, no [completed] flag. *)
Example docToTodo_legacy :
  docToTodo legacy_doc =
    {| Todo.id := "L"; Todo.name := VStr "Milk"; Todo.room := VStr "";
       Todo.model := None; Todo.price := None; Todo.imgUrl := None;
       Todo.link := Some (VStr "https://example.com/milk");
       Todo.completed := false |}.
Proof. reflexivity. Qed.

Example docToTodo_sample :
  docToTodo (sample_doc "A" 0) =
    {| Todo.id := "A"; Todo.name := VStr "A"; Todo.room := VStr "Kuhinja";
       Todo.model := None; Todo.price := None; Todo.imgUrl := None;
       Todo.link := None; Todo.completed := false |}.
Proof. reflexivity. Qed.

(** ** Toggle *)


Lemma applyUpdate_lookup (changes : gmap string fieldValue) (data : gmap string value)
    (k : string) :
  applyUpdate changes data !! k =
    match changes !! k with
    | Some (Plain x) => Some x
    | Some deleteField => None
    | Some serverTimestamp => Some VObject
    | None => data !! k
    end.
Proof.
  unfold applyUpdate. rewrite lookup_merge.
  destruct (changes !! k) as [[]|], (data !! k); done.
Qed.



(** The scenario of the specification, on the code: the view is unchanged
    by [toggle]; the snapshot that carries the write shows B completed, a
    snapshot that does not shows it as before. *)
Example toggle_scenario :
  let written := Doc.mk "B" (applyUpdate {[ "completed" := Plain (VBool true) ]}
                                         (Doc.data (sample_doc "B" 1))) in
  Todo.completed <$> todos (toggle "B" abc).1 = [false; false; false] ∧
  Todo.completed <$> todos (onSnapshot [sample_doc "A" 0; written; sample_doc "C" 2]
                                       (toggle "B" abc).1) = [false; true; false] ∧
  Todo.completed <$> todos (onSnapshot abc_docs (toggle "B" abc).1) = [false; false; false].
Proof. repeat split; reflexivity. Qed.

Example toggle_unknown_id : toggle "Z" abc = (abc, []).
Proof. reflexivity. Qed.

(** ** The form *)

Section SubmitFacts.
Context `{Platform}.

Lemma isNaN_true (n : number) : isNaN n = true ↔ n = NaN.
Proof. destruct n; simpl; split; congruence. Qed.

(** The guards of [handleSubmit] fire exactly on invalid input. *)
Lemma handleSubmit_rejects (st : State) :
  invalid_input st →
  ∃ msg,
    msg ∈ [ "Naziv je obavezan."; "Izaberite prostoriju.";
            "Cena mora biti broj (ako je navedena).";
            "Unesite ispravne URL-ove za sliku i link (ako su navedeni)." ] ∧
    handleSubmit st = (setError (Some msg) st, []).
Proof.
  intros Hinv. unfold handleSubmit. cbv zeta.
  destruct (nonempty (trim (name st))) eqn:Hn; cbn [negb].
  2:{ eexists. split; [|done]. set_solver. }
  destruct (nonempty (trim (room st))) eqn:Hrm; cbn [negb].
  2:{ eexists. split; [|done]. set_solver. }
  destruct (nonempty (trim (price st)) &&
            isNaN (if nonempty (trim (price st)) then parseFloat (trim (price st)) else NaN))
    eqn:Hp.
  { eexists. split; [|done]. set_solver. }
  destruct (nonempty (trim (imgUrl st)) && negb (isValidUrl (trim (imgUrl st)))
            || nonempty (trim (link st)) && negb (isValidUrl (trim (link st)))) eqn:Hu.
  { eexists. split; [|done]. set_solver. }
  exfalso.
  apply nonempty_true in Hn. apply nonempty_true in Hrm.
  destruct Hinv as [Ht | [Hc | [[Hpt Hnan] | Hurl]]]; [done|done| |].
  - apply nonempty_true in Hpt. rewrite Hpt, Hnan in Hp. done.
  - apply orb_false_iff in Hu as [Himg Hlnk]. unfold isValidUrl in *.
    destruct Hurl as [[Hne Hbad] | [Hne Hbad]]; apply nonempty_true in Hne.
    + by rewrite Hne, Hbad in Himg.
    + by rewrite Hne, Hbad in Hlnk.
Qed.

Lemma handleSubmit_accepts (st : State) :
  valid_input st →
  let n := trim (name st) in
  let rm := trim (room st) in
  let m := trim (model st) in
  let priceText := trim (price st) in
  let p := if nonempty priceText then parseFloat priceText else NaN in
  let img := trim (imgUrl st) in
  let lnk := trim (link st) in
  (∀ i, is_edit st i →
     handleSubmit st =
       (setError None st,
        [ {| op := updateDoc (selectedCollection st) i
                     (payloadUpdate n rm m priceText p img lnk);
             onFulfilled := thenCloseModal;
             onRejected := warn "submit failed" |} ])) ∧
  (is_add st →
     handleSubmit st =
       (setError None st,
        [ {| op := addDoc (selectedCollection st)
                     (payloadAdd n rm m p img lnk (length (todos st)));
             onFulfilled := thenCloseModal;
             onRejected := warn "submit failed" |} ])).
Proof.
  intros Hvalid. unfold valid_input, invalid_input in Hvalid.
  assert (nonempty (trim (name st)) = true) as Hn.
  { apply nonempty_true. intros Hn. apply Hvalid. by left. }
  assert (nonempty (trim (room st)) = true) as Hrm.
  { apply nonempty_true. intros Hrm. apply Hvalid. right. by left. }
  assert (nonempty (trim (price st)) &&
          isNaN (if nonempty (trim (price st)) then parseFloat (trim (price st)) else NaN)
          = false) as Hp.
  { destruct (nonempty (trim (price st))) eqn:Hpt; [|done]. simpl.
    apply not_true_is_false. intros Hnan%isNaN_true.
    apply Hvalid. right. right. left. split; [by apply nonempty_true|done]. }
  assert (nonempty (trim (imgUrl st)) && negb (isValidUrl (trim (imgUrl st)))
          || nonempty (trim (link st)) && negb (isValidUrl (trim (link st))) = false) as Hu.
  { apply not_true_is_false. intros Hbad. apply Hvalid. do 3 right.
    unfold malformed_url, isValidUrl in *.
    apply orb_true_iff in Hbad as [[Hne Hb]%andb_true_iff | [Hne Hb]%andb_true_iff];
      apply nonempty_true in Hne; apply negb_true_iff in Hb; [left|right]; done. }
  cbv zeta. split.
  - intros i [Hedit Hi%nonempty_true]. unfold handleSubmit. cbv zeta.
    rewrite Hn, Hrm, Hp, Hu. cbn [negb editId setError]. by rewrite Hedit, Hi.
  - intros Hadd. unfold handleSubmit. cbv zeta.
    rewrite Hn, Hrm, Hp, Hu. cbn [negb editId setError].
    by destruct Hadd as [-> | ->].
Qed.
End SubmitFacts.

Section SubmitClaims.
Context `{Platform}.

Lemma payloadAdd_sort (n rm m : string) (p : number) (img lnk : string) (len : nat) :
  payloadAdd n rm m p img lnk len !! "sort" = Some (Plain (VNum (of_nat len))).
Proof. unfold payloadAdd. apply lookup_insert_eq. Qed.

Lemma payloadUpdate_optional (n rm m priceText : string) (p : number) (img lnk : string) :
  let payload := payloadUpdate n rm m priceText p img lnk in
  payload !! "model" = Some (optional_string m) ∧
  payload !! "price" = Some (if nonempty priceText then Plain (VNum p) else deleteField) ∧
  payload !! "imgUrl" = Some (optional_string img) ∧
  payload !! "link" = Some (optional_string lnk).
Proof.
  unfold payloadUpdate. cbv zeta. split; [|split; [|split]].
  - by rewrite !lookup_insert_ne, lookup_insert_eq by done.
  - by rewrite !lookup_insert_ne, lookup_insert_eq by done.
  - by rewrite lookup_insert_ne, lookup_insert_eq by done.
  - by rewrite lookup_insert_eq.
Qed.

(** C6.  An add that passes validation issues one create request whose
    [sort] field is the number of items in the Local View (the client's
    count of the items of the selected collection) at the time of the
    request. *)
Theorem add_position_is_item_count (st : State) :
  valid_input st → is_add st →
  ∃ payload r,
    handleSubmit st = (setError None st, [r]) ∧
    op r = addDoc (selectedCollection st) payload ∧
    payload !! "sort" = Some (Plain (VNum (of_nat (length (todos st))))).
Proof.
  intros Hvalid Hadd.
  destruct (handleSubmit_accepts st Hvalid) as [_ Hsubmit].
  eexists _, _. split; [by apply Hsubmit|].
  split; [done|]. apply payloadAdd_sort.
Qed.

(** C7.  An edit that passes validation issues one update in which every
    optional field (model, price, image URL, link) left empty carries the
    field-removal marker, not a value: applied to the stored document, the
    field is gone, and the item mapped from it has no price. *)
Theorem edit_removes_cleared_fields (st : State) (i : string) :
  valid_input st → is_edit st i →
  ∃ payload r,
    handleSubmit st = (setError None st, [r]) ∧
    op r = updateDoc (selectedCollection st) i payload ∧
    (trim (model st) = "" → payload !! "model" = Some deleteField) ∧
    (trim (price st) = "" → payload !! "price" = Some deleteField) ∧
    (trim (imgUrl st) = "" → payload !! "imgUrl" = Some deleteField) ∧
    (trim (link st) = "" → payload !! "link" = Some deleteField) ∧
    (∀ k data, payload !! k = Some deleteField → applyUpdate payload data !! k = None) ∧
    (trim (price st) = "" →
     ∀ data, Todo.price (docToTodo (Doc.mk i (applyUpdate payload data))) = None).
Proof.
  intros Hvalid Hedit.
  destruct (handleSubmit_accepts st Hvalid) as [Hsubmit _].
  eexists _, _. split; [by apply Hsubmit|]. split; [done|].
  match goal with |- context [payloadUpdate ?n ?rm ?m ?pt ?p ?img ?lnk] =>
    destruct (payloadUpdate_optional n rm m pt p img lnk) as (Hm & Hp & Himg & Hlnk)
  end.
  split; [intros Hc; rewrite Hm; unfold optional_string; by rewrite Hc|].
  split; [intros Hc; rewrite Hp; by rewrite Hc|].
  split; [intros Hc; rewrite Himg; unfold optional_string; by rewrite Hc|].
  split; [intros Hc; rewrite Hlnk; unfold optional_string; by rewrite Hc|].
  split.
  - intros k data Hk. by rewrite applyUpdate_lookup, Hk.
  - intros Hc data. unfold docToTodo. cbn [Doc.data Todo.price].
    by rewrite applyUpdate_lookup, Hp, Hc.
Qed.

(** What the four checks reject.  A submission, add or edit, that fails one
    of them (missing title, missing category, price text with no number at
    its head, malformed URL) issues no remote request, sets the error message
    shown in the form, and leaves the Local View as it is. *)
Theorem invalid_input_is_rejected (st : State) :
  invalid_input st →
  ∃ msg,
    handleSubmit st = (setError (Some msg) st, []) ∧
    (handleSubmit st).2 = [] ∧
    error (handleSubmit st).1 = Some msg ∧
    todos (handleSubmit st).1 = todos st ∧
    msg ∈ [ "Naziv je obavezan."; "Izaberite prostoriju.";
            "Cena mora biti broj (ako je navedena).";
            "Unesite ispravne URL-ove za sliku i link (ako su navedeni)." ].
Proof.
  intros Hinv. destruct (handleSubmit_rejects st Hinv) as (msg & Hmsg & Hsubmit).
  exists msg. by rewrite Hsubmit.
Qed.
End SubmitClaims.

Lemma adding_milk_valid : valid_input (H := Reference.platform) adding_milk.
Proof.
  intros [Ht | [Hc | [[Hp _] | [[Hu _] | [Hu _]]]]]; vm_compute in *; congruence.
Qed.

Lemma add_position_is_item_count_witness :
  valid_input (H := Reference.platform) adding_milk ∧
  is_add adding_milk ∧
  ∃ payload r,
    handleSubmit (H := Reference.platform) adding_milk = (setError None adding_milk, [r]) ∧
    op r = addDoc (selectedCollection adding_milk) payload ∧
    payload !! "sort" = Some (Plain (VNum (of_nat (length (todos adding_milk))))).
Proof.
  split; [exact adding_milk_valid|]. split; [left; reflexivity|].
  apply (add_position_is_item_count (H := Reference.platform) adding_milk).
  - exact adding_milk_valid.
  - left. reflexivity.
Defined.

(** The scenario of the specification: "Milk" is added to a list of three
    items and gets position 3. *)
Example add_scenario :
  handleSubmit (H := Reference.platform) adding_milk =
    (adding_milk,
     [ {| op := addDoc "todos"
                  (<[ "sort" := Plain (VNum (of_nat 3)) ]>
                   (<[ "createdAt" := serverTimestamp ]>
                   (<[ "completed" := Plain (VBool false) ]>
                   (<[ "room" := Plain (VStr "Kuhinja") ]>
                   {[ "name" := Plain (VStr "Milk") ]}))));
          onFulfilled := thenCloseModal;
          onRejected := warn "submit failed" |} ]).
Proof. reflexivity. Qed.

Lemma editing_B_valid : valid_input (H := Reference.platform) editing_B.
Proof.
  intros [Ht | [Hc | [[Hp _] | [[_ Hu] | [Hu _]]]]]; vm_compute in *; congruence.
Qed.

Lemma edit_removes_cleared_fields_witness :
  let P := Reference.platform in
  valid_input editing_B ∧ is_edit editing_B "B" ∧
  ∃ payload r,
    handleSubmit editing_B = (setError None editing_B, [r]) ∧
    op r = updateDoc (selectedCollection editing_B) "B" payload ∧
    (trim (model editing_B) = "" → payload !! "model" = Some deleteField) ∧
    (trim (price editing_B) = "" → payload !! "price" = Some deleteField) ∧
    (trim (imgUrl editing_B) = "" → payload !! "imgUrl" = Some deleteField) ∧
    (trim (link editing_B) = "" → payload !! "link" = Some deleteField) ∧
    (∀ k data, payload !! k = Some deleteField → applyUpdate payload data !! k = None) ∧
    (trim (price editing_B) = "" →
     ∀ data, Todo.price (docToTodo (Doc.mk "B" (applyUpdate payload data))) = None).
Proof.
  intros P.
  split; [exact editing_B_valid|]. split; [split; [reflexivity|discriminate]|].
  apply (edit_removes_cleared_fields (H := P) editing_B "B").
  - exact editing_B_valid.
  - split; [reflexivity|discriminate].
Defined.

(** Editing B with the price and the link left empty. *)
Example edit_scenario :
  handleSubmit (H := Reference.platform) editing_B =
    (editing_B,
     [ {| op := updateDoc "todos" "B"
                  (<[ "link" := deleteField ]>
                   (<[ "imgUrl" := Plain (VStr "https://example.com/b.png") ]>
                   (<[ "price" := deleteField ]>
                   (<[ "model" := Plain (VStr "V15") ]>
                   (<[ "room" := Plain (VStr "Kuhinja") ]>
                   {[ "name" := Plain (VStr "B") ]})))));
          onFulfilled := thenCloseModal;
          onRejected := warn "submit failed" |} ]).
Proof. reflexivity. Qed.

Lemma invalid_input_is_rejected_witness :
  let P := Reference.platform in
  invalid_input bad_price ∧
  ∃ msg,
    handleSubmit bad_price = (setError (Some msg) bad_price, []) ∧
    (handleSubmit bad_price).2 = [] ∧
    error (handleSubmit bad_price).1 = Some msg ∧
    todos (handleSubmit bad_price).1 = todos bad_price ∧
    msg ∈ [ "Naziv je obavezan."; "Izaberite prostoriju.";
            "Cena mora biti broj (ako je navedena).";
            "Unesite ispravne URL-ove za sliku i link (ako su navedeni)." ].
Proof.
  intros P.
  assert (invalid_input bad_price) as Hinv.
  { right. right. left. split; [vm_compute; discriminate | reflexivity]. }
  split; [exact Hinv|].
  apply (invalid_input_is_rejected (H := P) bad_price Hinv).
Defined.

Example bad_price_rejected :
  handleSubmit (H := Reference.platform) bad_price =
    (setError (Some "Cena mora biti broj (ako je navedena).") bad_price, []).
Proof. reflexivity. Qed.

(** C8.  A non-numeric price is not always rejected.  The price test is
    that of [Number.parseFloat], which reads a number at the head of the text
    and ignores what follows it: the add form submitted with the price text
    "12 din" sets no error message and issues the create request, with the
    price 12. *)
Theorem non_numeric_price_is_sent :
  handleSubmit (H := Reference.platform) price_with_unit =
    (setError None price_with_unit,
     [ {| op := addDoc "todos"
                  (<[ "sort" := Plain (VNum (of_nat 3)) ]>
                   (<[ "price" := Plain (VNum (of_nat 12)) ]>
                   (<[ "createdAt" := serverTimestamp ]>
                   (<[ "completed" := Plain (VBool false) ]>
                   (<[ "room" := Plain (VStr "Kuhinja") ]>
                   {[ "name" := Plain (VStr "Milk") ]})))));
          onFulfilled := thenCloseModal;
          onRejected := warn "submit failed" |} ]) ∧
  error (handleSubmit (H := Reference.platform) price_with_unit).1 = None.
Proof. split; reflexivity. Qed.

(** A price written with a decimal comma is sent without its decimals. *)
Example price_with_comma_is_truncated :
  ∃ payload,
    handleSubmit (H := Reference.platform) price_with_comma =
      (setError None price_with_comma,
       [ {| op := addDoc "todos" payload;
            onFulfilled := thenCloseModal;
            onRejected := warn "submit failed" |} ]) ∧
    payload !! "price" = Some (Plain (VNum (of_nat 299))).
Proof. eexists. split; reflexivity. Qed.

(** * The rest of the component: properties *)

(** ** The displayed list *)

Section Filters.
Context {A : Type}.
Implicit Types (p q : A → bool) (l : list A).

Lemma filter_sublist p l : List.filter p l `sublist_of` l.
Proof.
  induction l as [|x l IH]; simpl; [constructor|].
  destruct (p x); by constructor.
Qed.

Lemma filter_elem_of p l x : x ∈ List.filter p l ↔ x ∈ l ∧ p x = true.
Proof. rewrite !list_elem_of_In. apply List.filter_In. Qed.

Lemma filter_filter_and p q l :
  List.filter q (List.filter p l) = List.filter (λ x, p x && q x) l.
Proof.
  induction l as [|x l IH]; simpl; [done|].
  destruct (p x) eqn:Hp; simpl; [|done].
  destruct (q x); by rewrite IH.
Qed.

Lemma filter_true p l : (∀ x, x ∈ l → p x = true) → List.filter p l = l.
Proof.
  induction l as [|x l IH]; simpl; intros Hall; [done|].
  rewrite (Hall x) by apply list_elem_of_here.
  f_equal. apply IH. intros y Hy. apply Hall. by apply list_elem_of_further.
Qed.

Lemma filter_none p l : (∀ x, x ∈ l → p x = false) → List.filter p l = [].
Proof.
  induction l as [|x l IH]; simpl; intros Hall; [done|].
  rewrite (Hall x) by apply list_elem_of_here.
  apply IH. intros y Hy. apply Hall. by apply list_elem_of_further.
Qed.

Lemma filter_idempotent p l : List.filter p (List.filter p l) = List.filter p l.
Proof. apply filter_true. intros x Hx. by apply filter_elem_of in Hx as [_ ?]. Qed.

Lemma filter_length_split p l :
  (length (List.filter p l) + length (List.filter (λ x, negb (p x)) l))%nat = length l.
Proof.
  induction l as [|x l IH]; simpl; [done|].
  destruct (p x); simpl; lia.
Qed.
End Filters.

(** The two filtering steps of [filtered] are one pass with both tests. *)
Lemma filtered_one_pass (l : list Todo.t) (f : Filter.t) (r : string) :
  filtered l f r = List.filter (λ t, passes_status f t && passes_room r t) l.
Proof.
  unfold filtered, passes_room. cbv zeta.
  destruct (String.eqb r "all") eqn:Hall; cbn [negb orb].
  - destruct f; cbn [passes_status].
    + symmetry. by apply filter_true.
    + apply List.filter_ext. intros t. by rewrite andb_true_r.
    + apply List.filter_ext. intros t. by rewrite andb_true_r.
  - destruct f; cbn [passes_status].
    + done.
    + apply filter_filter_and.
    + apply filter_filter_and.
Qed.

Lemma filtered_sublist (l : list Todo.t) (f : Filter.t) (r : string) :
  filtered l f r `sublist_of` l.
Proof. rewrite filtered_one_pass. apply filter_sublist. Qed.

Lemma filtered_elem_of (l : list Todo.t) (f : Filter.t) (r : string) (t : Todo.t) :
  t ∈ filtered l f r ↔ t ∈ l ∧ passes_status f t = true ∧ passes_room r t = true.
Proof. rewrite filtered_one_pass, filter_elem_of, andb_true_iff. tauto. Qed.

(** X1.  The displayed list holds exactly the items of the Local View that pass the
    status filter and the room filter, in the order of the Local View. *)
Theorem filtered_shows_matching_items (l : list Todo.t) (f : Filter.t) (r : string) :
  filtered l f r `sublist_of` l ∧
  ∀ t, t ∈ filtered l f r ↔ t ∈ l ∧ passes_status f t = true ∧ passes_room r t = true.
Proof.
  split; [apply filtered_sublist|]. intros t. apply filtered_elem_of.
Qed.

(** X2.  Filtering is stable: applying the same filters to the displayed list gives the
    displayed list, narrowing by status and then by room is narrowing by both
    at once, and with both filters on [all] the whole Local View is
    displayed. *)
Theorem filtered_composes (l : list Todo.t) (f : Filter.t) (r : string) :
  filtered (filtered l f r) f r = filtered l f r ∧
  filtered (filtered l f "all") Filter.all r = filtered l f r ∧
  filtered (filtered l Filter.all r) f "all" = filtered l f r ∧
  filtered l Filter.all "all" = l.
Proof.
  rewrite !filtered_one_pass. split; [apply filter_idempotent|].
  split; [|split].
  - rewrite filter_filter_and. apply List.filter_ext. intros t.
    unfold passes_room. simpl. by rewrite andb_true_r.
  - rewrite filter_filter_and. apply List.filter_ext. intros t.
    unfold passes_room. simpl. rewrite andb_true_r. apply andb_comm.
  - by apply filter_true.
Qed.

(** X3.  The counters shown on the status pills are taken from the displayed list:
    [completedCount], computed by subtraction, is the number of completed
    items displayed, the two counts add up to the total, and under the
    [active] filter the completed count is 0, under the [completed] filter the
    active count is 0. *)
Theorem counters_of_displayed_list (l : list Todo.t) (f : Filter.t) (r : string) :
  let shown := filtered l f r in
  completedCount shown = Z.of_nat (length (List.filter (λ t, Todo.completed t) shown)) ∧
  activeCount shown + completedCount shown = total shown ∧
  0 ≤ activeCount shown ≤ total shown ∧
  completedCount (filtered l Filter.active r) = 0 ∧
  activeCount (filtered l Filter.completed r) = 0.
Proof.
  intros shown.
  assert (∀ k : list Todo.t,
    completedCount k = Z.of_nat (length (List.filter (λ t, Todo.completed t) k))) as Hcount.
  { intros k. unfold completedCount, total, activeCount.
    pose proof (filter_length_split (λ t, Todo.completed t) k) as Hsplit.
    cbv beta in Hsplit. lia. }
  split; [apply Hcount|].
  split; [unfold completedCount; lia|].
  split.
  { unfold activeCount, total.
    pose proof (filter_length_split (λ t, negb (Todo.completed t)) shown) as Hsplit.
    cbv beta in Hsplit. lia. }
  split.
  - rewrite Hcount, filtered_one_pass, filter_filter_and.
    rewrite (List.filter_ext _ (λ _, false)).
    + by induction l.
    + intros t. simpl. by destruct (Todo.completed t), (passes_room r t).
  - unfold activeCount. rewrite filtered_one_pass, filter_filter_and.
    rewrite (List.filter_ext _ (λ _, false)).
    + by induction l.
    + intros t. simpl. by destruct (Todo.completed t), (passes_room r t).
Qed.

(** ** More on drag and drop *)

(** X4.  A drop never loses, duplicates or invents an item: whatever the state and
    the target, the Local View after the drop is a rearrangement of the one
    before, and so are its ids. *)
Theorem drop_keeps_items (st : State) (targetId : string) :
  todos (onDropCard targetId st).1 ≡ₚ todos st ∧
  Todo.id <$> todos (onDropCard targetId st).1 ≡ₚ Todo.id <$> todos st ∧
  length (todos (onDropCard targetId st).1) = length (todos st).
Proof.
  assert (todos (onDropCard targetId st).1 ≡ₚ todos st) as Hperm.
  { destruct (onDropCard_cases st targetId) as [-> | (x & s & d & _ & _ & _ & _ & _ & ->)];
      [done|]. apply moveItem_Permutation. }
  split; [done|]. split; by rewrite Hperm.
Qed.

Lemma moveItem_delete {A} (l : list A) (s d : nat) :
  (s < length l)%nat → (d < length l)%nat →
  delete d (moveItem s d l) = delete s l.
Proof.
  intros [x Hx]%lookup_lt_is_Some_2 Hd.
  rewrite (moveItem_eq _ _ _ _ Hx).
  assert (length (take d (delete s l)) = d) as Hlen.
  { rewrite length_take, length_delete by eauto. apply lookup_lt_Some in Hx. lia. }
  rewrite <- Hlen at 1. rewrite delete_middle. apply take_drop.
Qed.

(** X5.  A reorder moves one item only: with the moved item taken out, the new
    order is the old order, so all other items keep their order relative to
    each other. *)
Theorem reorder_keeps_relative_order
    (st : State) (dragging targetId : string) (s d : nat) :
  draggingId st = Some dragging → dragging ≠ "" → dragging ≠ targetId →
  findIndex (has_id dragging) (todos st) = Z.of_nat s →
  findIndex (has_id targetId) (todos st) = Z.of_nat d →
  delete d (todos (onDropCard targetId st).1) = delete s (todos st).
Proof.
  intros Hdrag Hne Hdiff Hs Hd.
  rewrite (onDropCard_moveItem st dragging targetId s d) by done.
  destruct (findIndex_found _ _ _ Hs) as (x & Hx%lookup_lt_Some & _).
  destruct (findIndex_found _ _ _ Hd) as (y & Hy%lookup_lt_Some & _).
  by apply moveItem_delete.
Qed.

Lemma reorder_keeps_relative_order_witness :
  let st := onDragStartCard "A" abc in
  draggingId st = Some "A" ∧ "A" ≠ "" ∧ "A" ≠ "C" ∧
  findIndex (has_id "A") (todos st) = Z.of_nat 0 ∧
  findIndex (has_id "C") (todos st) = Z.of_nat 2 ∧
  delete 2%nat (todos (onDropCard "C" st).1) = delete 0%nat (todos st).
Proof.
  intros st.
  split; [reflexivity|]. split; [discriminate|]. split; [discriminate|].
  split; [reflexivity|]. split; [reflexivity|].
  apply (reorder_keeps_relative_order st "A" "C" 0 2);
    [reflexivity | discriminate | discriminate | reflexivity | reflexivity].
Defined.

Lemma moveItem_back {A} (l : list A) (s d : nat) :
  (s < length l)%nat → (d < length l)%nat →
  moveItem d s (moveItem s d l) = l.
Proof.
  intros Hs Hd.
  destruct (lookup_lt_is_Some_2 _ _ Hs) as [x Hx].
  assert (moveItem s d l !! d = Some x) as Hx' by by apply moveItem_at_destination.
  assert (s < length (moveItem s d l))%nat as Hs' by by rewrite moveItem_length.
  apply list_eq. intros i.
  rewrite (moveItem_lookup _ _ _ _ _ Hx' Hs').
  rewrite !(moveItem_lookup _ _ _ _ _ Hx Hd).
  destruct (decide (length l ≤ i)%nat) as [Hi|Hi].
  { rewrite !(lookup_ge_None_2 l) by lia.
    repeat case_decide; try lia; try done. }
  repeat case_decide; subst; try lia; try done; f_equal; lia.
Qed.

(** X6.  With unique ids a reorder can be undone by a drag: dropping the moved item
    on the card that now sits at its old index restores the order. *)
Theorem reorder_undone_by_drag_back
    (st : State) (dragging targetId : string) (s d : nat) :
  NoDup (Todo.id <$> todos st) →
  dragging ≠ "" → dragging ≠ targetId →
  findIndex (has_id dragging) (todos st) = Z.of_nat s →
  findIndex (has_id targetId) (todos st) = Z.of_nat d →
  let st1 := (dragAndDrop dragging targetId st).1 in
  ∃ back,
    todos st1 !! s = Some back ∧
    todos (dragAndDrop dragging (Todo.id back) st1).1 = todos st.
Proof.
  intros Hnodup Hne Hdiff Hs Hd st1.
  destruct (findIndex_found _ _ _ Hs) as (x & Hx & Hidx%has_id_true & _).
  destruct (findIndex_found _ _ _ Hd) as (y & Hy & Hidy%has_id_true & _).
  pose proof (lookup_lt_Some _ _ _ Hx) as Hslt.
  pose proof (lookup_lt_Some _ _ _ Hy) as Hdlt.
  assert (s ≠ d) as Hsd by congruence.
  assert (todos st1 = moveItem s d (todos st)) as Hst1.
  { unfold st1, dragAndDrop.
    by rewrite (onDropCard_moveItem _ dragging targetId s d). }
  assert (NoDup (Todo.id <$> todos st1)) as Hnodup1.
  { by rewrite Hst1, moveItem_Permutation. }
  destruct (lookup_lt_is_Some_2 (todos st1) s) as [back Hback].
  { by rewrite Hst1, moveItem_length. }
  assert (todos st1 !! d = Some x) as Hmoved.
  { rewrite Hst1. by apply moveItem_at_destination. }
  assert (dragging ≠ Todo.id back) as Hdiff'.
  { intros Heq. apply Hsd.
    apply (NoDup_lookup _ s d dragging Hnodup1).
    - rewrite list_lookup_fmap, Hback. simpl. congruence.
    - rewrite list_lookup_fmap, Hmoved. simpl. congruence. }
  exists back. split; [done|].
  unfold dragAndDrop.
  rewrite (onDropCard_moveItem _ dragging (Todo.id back) d s); try done.
  - cbn [todos setTodos setDraggingId onDragStartCard].
    rewrite Hst1. by apply moveItem_back.
  - cbn [todos setDraggingId onDragStartCard]. rewrite <- Hidx.
    by apply findIndex_unique.
  - cbn [todos setDraggingId onDragStartCard]. by apply findIndex_unique.
Qed.

Lemma abc_ids_unique : NoDup (Todo.id <$> todos abc).
Proof.
  apply (bool_decide_unpack _). vm_compute. exact I.
Qed.

Lemma reorder_undone_by_drag_back_witness :
  NoDup (Todo.id <$> todos abc) ∧ "C" ≠ "" ∧ "C" ≠ "A" ∧
  findIndex (has_id "C") (todos abc) = Z.of_nat 2 ∧
  findIndex (has_id "A") (todos abc) = Z.of_nat 0 ∧
  let st1 := (dragAndDrop "C" "A" abc).1 in
  ∃ back,
    todos st1 !! 2%nat = Some back ∧
    todos (dragAndDrop "C" (Todo.id back) st1).1 = todos abc.
Proof.
  pose proof abc_ids_unique as Hnodup.
  split; [exact Hnodup|]. split; [discriminate|]. split; [discriminate|].
  split; [reflexivity|]. split; [reflexivity|].
  apply (reorder_undone_by_drag_back abc "C" "A" 2 0);
    [exact Hnodup | discriminate | discriminate | reflexivity | reflexivity].
Defined.

Lemma findIndex_present (l : list Todo.t) (t : Todo.t) :
  t ∈ l → ∃ k : nat, findIndex (has_id (Todo.id t)) l = Z.of_nat k.
Proof.
  intros Ht.
  destruct (Z.neg_nonneg_cases (findIndex (has_id (Todo.id t)) l)) as [Hneg|Hpos].
  - pose proof (proj1 (findIndex_absent _ _) Hneg t Ht) as Hfalse.
    apply has_id_false in Hfalse. done.
  - exists (Z.to_nat (findIndex (has_id (Todo.id t)) l)). by rewrite Z2Nat.id.
Qed.

(** X7.  A drag between two displayed cards with different ids always reorders: the
    guards of [onDropCard] do not fire, the indices are those in the whole
    Local View, and the batch writes every item of the Local View, also the
    ones the filters hide. *)
Theorem drop_between_displayed_cards
    (st : State) (f : Filter.t) (r : string) (a b : Todo.t) :
  a ∈ filtered (todos st) f r → b ∈ filtered (todos st) f r →
  Todo.id a ≠ "" → Todo.id a ≠ Todo.id b →
  ∃ (s d : nat) req,
    findIndex (has_id (Todo.id a)) (todos st) = Z.of_nat s ∧
    findIndex (has_id (Todo.id b)) (todos st) = Z.of_nat d ∧
    dragAndDrop (Todo.id a) (Todo.id b) st =
      (setTodos (moveItem s d (todos st)) (onDragEndCard st), [req]) ∧
    updated_ids req ≡ₚ Todo.id <$> todos st ∧
    (length (filtered (todos st) f r) ≤ length (batch_updates req))%nat.
Proof.
  intros Ha Hb Hne Hdiff.
  apply filtered_elem_of in Ha as [Ha _], Hb as [Hb _].
  destruct (findIndex_present _ _ Ha) as [s Hs].
  destruct (findIndex_present _ _ Hb) as [d Hd].
  exists s, d, (commitOrder (selectedCollection st) (moveItem s d (todos st))).
  split; [done|]. split; [done|]. split.
  { unfold dragAndDrop.
    by rewrite (onDropCard_moveItem _ (Todo.id a) (Todo.id b) s d). }
  split.
  - by rewrite sortUpdates_ids, moveItem_Permutation.
  - unfold batch_updates, commitOrder, sortUpdates. cbn [op].
    rewrite length_imap, moveItem_length.
    apply sublist_length, filtered_sublist.
Qed.

Lemma drop_between_displayed_cards_witness :
  let a := docToTodo (sample_doc "A" 0) in
  let b := docToTodo (sample_doc "C" 2) in
  a ∈ filtered (todos abc) Filter.active "Kuhinja" ∧
  b ∈ filtered (todos abc) Filter.active "Kuhinja" ∧
  Todo.id a ≠ "" ∧ Todo.id a ≠ Todo.id b ∧
  ∃ (s d : nat) req,
    findIndex (has_id (Todo.id a)) (todos abc) = Z.of_nat s ∧
    findIndex (has_id (Todo.id b)) (todos abc) = Z.of_nat d ∧
    dragAndDrop (Todo.id a) (Todo.id b) abc =
      (setTodos (moveItem s d (todos abc)) (onDragEndCard abc), [req]) ∧
    updated_ids req ≡ₚ Todo.id <$> todos abc ∧
    (length (filtered (todos abc) Filter.active "Kuhinja") ≤ length (batch_updates req))%nat.
Proof.
  intros a b.
  assert (a ∈ filtered (todos abc) Filter.active "Kuhinja") as Ha.
  { vm_compute. apply list_elem_of_here. }
  assert (b ∈ filtered (todos abc) Filter.active "Kuhinja") as Hb.
  { vm_compute. do 2 apply list_elem_of_further. apply list_elem_of_here. }
  split; [exact Ha|]. split; [exact Hb|]. split; [discriminate|]. split; [discriminate|].
  apply (drop_between_displayed_cards abc Filter.active "Kuhinja" a b Ha Hb);
    discriminate.
Defined.




(** X9.  A snapshot that arrives during a drag does not cancel the drag, and the
    drop that follows works on the snapshot's list: it is a no-op when the
    dragged or the target item is no longer there, and otherwise rearranges
    the items of the snapshot. *)
Theorem drop_after_snapshot (st : State) (docs : list Doc.t) (dragging targetId : string) :
  let st1 := onSnapshot docs (onDragStartCard dragging st) in
  draggingId st1 = Some dragging ∧
  (dragging ∉ Doc.id <$> docs ∨ targetId ∉ Doc.id <$> docs →
   onDropCard targetId st1 = (st1, [])) ∧
  todos (onDropCard targetId st1).1 ≡ₚ docToTodo <$> docs.
Proof.
  intros st1. split; [done|]. split.
  - intros Hgone. apply onDropCard_guards.
    assert (∀ i, i ∉ Doc.id <$> docs → ∀ t, t ∈ todos st1 → Todo.id t ≠ i) as Habsent.
    { intros i Hi t Ht <-. apply Hi.
      cbn [st1 onSnapshot todos setTodos] in Ht.
      apply list_elem_of_fmap in Ht as (doc & -> & Hdoc).
      by apply (list_elem_of_fmap_2 Doc.id) in Hdoc. }
    destruct Hgone as [Hsrc | Hdst].
    + right. right. left. exists dragging. split; [done|]. by apply Habsent.
    + do 3 right. by apply Habsent.
  - destruct (onDropCard_cases st1 targetId) as [-> | (x & s & d & _ & _ & _ & _ & _ & ->)];
      [done|].
    cbn [fst todos setTodos setDraggingId]. by rewrite moveItem_Permutation.
Qed.

(** X10.  [toggle] and [remove] leave the whole component state as it is.
    [toggle] issues nothing for an id that is not in the Local View, whereas
    [remove] issues the delete for any id; and since the flag is read from the
    Local View, toggling again before a snapshot issues the same write
    again. *)
Theorem toggle_and_remove_only_write (st : State) (i : string) :
  (toggle i st).1 = st ∧
  (remove i st).1 = st ∧
  ((∀ t, t ∈ todos st → Todo.id t ≠ i) → (toggle i st).2 = []) ∧
  (∃ r, (remove i st).2 = [r] ∧ op r = deleteDoc (selectedCollection st) i ∧
        ∀ st', settle r false st' = (st', ["remove failed"], [])) ∧
  toggle i (toggle i st).1 = toggle i st.
Proof.
  assert ((toggle i st).1 = st) as Hsame.
  { unfold toggle. by destruct (find (has_id i) (todos st)). }
  split; [done|]. split; [done|]. split.
  - intros Habsent. unfold toggle.
    destruct (find (has_id i) (todos st)) as [t|] eqn:Hfind; [|done].
    apply List.find_some in Hfind as [Ht%list_elem_of_In Hid%has_id_true].
    by destruct (Habsent t Ht).
  - split; [by eexists|]. by rewrite Hsame.
Qed.

(** ** More on the form *)

Section SubmitMore.
Context `{Platform}.

Lemma edit_or_add (st : State) : (∃ i, is_edit st i) ∨ is_add st.
Proof.
  unfold is_edit, is_add. destruct (editId st) as [i|]; [|by right; left].
  destruct (decide (i = "")) as [->|?]; [by right; right|]. left. by exists i.
Qed.

Lemma handleSubmit_request (st : State) :
  valid_input st → ∃ r, handleSubmit st = (setError None st, [r]) ∧
    onFulfilled r = thenCloseModal ∧ onRejected r = warn "submit failed".
Proof.
  intros Hvalid. destruct (handleSubmit_accepts st Hvalid) as [Hedit Hadd].
  destruct (edit_or_add st) as [[i Hi] | Ha].
  - rewrite (Hedit i Hi). by eexists.
  - rewrite (Hadd Ha). by eexists.
Qed.

(** X12.  The checks run in a fixed order and the first one that fails sets the
    message: title, then category, then price, then the URLs.  On valid input
    an earlier message is cleared. *)
Theorem first_failing_check_sets_message (st : State) :
  (missing_title st → error (handleSubmit st).1 = Some "Naziv je obavezan.") ∧
  (¬ missing_title st → missing_category st →
     error (handleSubmit st).1 = Some "Izaberite prostoriju.") ∧
  (¬ missing_title st → ¬ missing_category st → non_numeric_price st →
     error (handleSubmit st).1 = Some "Cena mora biti broj (ako je navedena).") ∧
  (¬ missing_title st → ¬ missing_category st → ¬ non_numeric_price st →
   malformed_url st →
     error (handleSubmit st).1 =
       Some "Unesite ispravne URL-ove za sliku i link (ako su navedeni).") ∧
  (valid_input st → error (handleSubmit st).1 = None).
Proof.
  unfold missing_title, missing_category, non_numeric_price.
  split; [|split; [|split; [|split]]].
  - intros Ht%nonempty_false. unfold handleSubmit. cbv zeta. by rewrite Ht.
  - intros Ht%nonempty_true Hc%nonempty_false. unfold handleSubmit. cbv zeta.
    by rewrite Ht, Hc.
  - intros Ht%nonempty_true Hc%nonempty_true [Hp%nonempty_true Hnan].
    unfold handleSubmit. cbv zeta. by rewrite Ht, Hc, Hp, Hnan.
  - intros Ht%nonempty_true Hc%nonempty_true Hp Hurl.
    unfold handleSubmit. cbv zeta. rewrite Ht, Hc. cbn [negb].
    destruct (nonempty (trim (price st)) &&
              isNaN (if nonempty (trim (price st)) then parseFloat (trim (price st)) else NaN))
      eqn:Hprice.
    { apply andb_true_iff in Hprice as [Hne Hnan]. rewrite Hne in Hnan.
      destruct Hp. split; [by apply nonempty_true | by apply isNaN_true]. }
    unfold isValidUrl.
    destruct Hurl as [[Hne%nonempty_true Hbad] | [Hne%nonempty_true Hbad]];
      rewrite Hne, Hbad; cbn [negb andb orb]; [done|].
    by rewrite orb_true_r.
  - intros Hvalid. destruct (handleSubmit_request st Hvalid) as (r & -> & _). done.
Qed.

(** X13.  The request of a valid submission is awaited: when it is fulfilled the
    form is closed and nothing else changes; when it is rejected one warning
    is logged, the form stays as it is, and nothing is sent again. *)
Theorem submit_settles (st : State) :
  valid_input st →
  ∃ r, (handleSubmit st).2 = [r] ∧
    (∀ st', settle r true st' = (setModalOpen false st', [], [])) ∧
    (∀ st', settle r false st' = (st', ["submit failed"], [])).
Proof.
  intros Hvalid. destruct (handleSubmit_request st Hvalid) as (r & Hr & Hok & Herr).
  exists r. rewrite Hr. split; [done|].
  unfold settle. rewrite Hok, Herr. done.
Qed.

Lemma payloadAdd_lookup (n rm m : string) (p : number) (img lnk : string) (len : nat) (k : string) :
  payloadAdd n rm m p img lnk len !! k =
    if decide (k = "sort") then Some (Plain (VNum (of_nat len)))
    else if decide (k = "link") then (if nonempty lnk then Some (Plain (VStr lnk)) else None)
    else if decide (k = "imgUrl") then (if nonempty img then Some (Plain (VStr img)) else None)
    else if decide (k = "price") then (if isNaN p then None else Some (Plain (VNum p)))
    else if decide (k = "model") then (if nonempty m then Some (Plain (VStr m)) else None)
    else if decide (k = "createdAt") then Some serverTimestamp
    else if decide (k = "completed") then Some (Plain (VBool false))
    else if decide (k = "room") then Some (Plain (VStr rm))
    else if decide (k = "name") then Some (Plain (VStr n))
    else None.
Proof.
  unfold payloadAdd, set_if. cbv zeta.
  destruct (nonempty lnk), (nonempty img), (isNaN p), (nonempty m); cbn [negb];
    repeat (rewrite lookup_insert; case_decide; subst; [by repeat case_decide|]);
    rewrite lookup_singleton; repeat case_decide; subst; done.
Qed.

(** X14.  The document created by an add holds the trimmed name and room,
    [completed = false], the server's timestamp and, as position, the number
    of items in the Local View; an optional
    field left empty is left out of the document, and no field carries a
    removal marker or [null]. *)
Theorem add_payload_omits_empty_fields (st : State) :
  valid_input st → is_add st →
  ∃ payload r,
    handleSubmit st = (setError None st, [r]) ∧
    op r = addDoc (selectedCollection st) payload ∧
    payload !! "name" = Some (Plain (VStr (trim (name st)))) ∧
    payload !! "room" = Some (Plain (VStr (trim (room st)))) ∧
    payload !! "completed" = Some (Plain (VBool false)) ∧
    payload !! "createdAt" = Some serverTimestamp ∧
    payload !! "sort" = Some (Plain (VNum (of_nat (length (todos st))))) ∧
    (trim (model st) = "" → payload !! "model" = None) ∧
    (trim (price st) = "" → payload !! "price" = None) ∧
    (trim (imgUrl st) = "" → payload !! "imgUrl" = None) ∧
    (trim (link st) = "" → payload !! "link" = None) ∧
    (∀ k, payload !! k ≠ Some deleteField ∧ payload !! k ≠ Some (Plain VNull)).
Proof.
  intros Hvalid Hadd.
  destruct (handleSubmit_accepts st Hvalid) as [_ Hsubmit].
  eexists _, _. split; [by apply Hsubmit|]. split; [done|].
  repeat split; try (rewrite payloadAdd_lookup; by repeat case_decide).
  - intros Hc%nonempty_false. rewrite payloadAdd_lookup, Hc. by repeat case_decide.
  - intros Hc%nonempty_false. rewrite payloadAdd_lookup, Hc. by repeat case_decide.
  - intros Hc%nonempty_false. rewrite payloadAdd_lookup, Hc. by repeat case_decide.
  - intros Hc%nonempty_false. rewrite payloadAdd_lookup, Hc. by repeat case_decide.
  - rewrite payloadAdd_lookup. repeat case_decide; try done;
      by repeat match goal with |- context [if ?b then _ else _] => destruct b end.
  - rewrite payloadAdd_lookup. repeat case_decide; try done;
      by repeat match goal with |- context [if ?b then _ else _] => destruct b end.
Qed.
End SubmitMore.

Section ReadBack.
Context `{Platform}.

Lemma valid_price (st : State) :
  valid_input st →
  nonempty (trim (price st)) = true → isNaN (parseFloat (trim (price st))) = false.
Proof.
  intros Hvalid Hne. apply not_true_is_false. intros Hnan%isNaN_true.
  apply Hvalid. right. right. left. split; [by apply nonempty_true|done].
Qed.

Lemma payloadUpdate_lookup (n rm m priceText : string) (p : number) (img lnk : string)
    (k : string) :
  payloadUpdate n rm m priceText p img lnk !! k =
    if decide (k = "link") then Some (optional_string lnk)
    else if decide (k = "imgUrl") then Some (optional_string img)
    else if decide (k = "price")
         then Some (if nonempty priceText then Plain (VNum p) else deleteField)
    else if decide (k = "model") then Some (optional_string m)
    else if decide (k = "room") then Some (Plain (VStr rm))
    else if decide (k = "name") then Some (Plain (VStr n))
    else None.
Proof.
  unfold payloadUpdate.
  repeat (rewrite lookup_insert; case_decide; subst; [by repeat case_decide|]).
  rewrite lookup_singleton; repeat case_decide; subst; done.
Qed.

(** X15.  What an add writes is what the snapshot mapping reads: the item mapped
    from the created document has the trimmed name and room of the form, the
    optional fields that were filled in and no others, the parsed price, and
    is not completed. *)
Theorem added_item_reads_back (st : State) (i : string) :
  valid_input st → is_add st →
  ∃ payload r,
    handleSubmit st = (setError None st, [r]) ∧
    op r = addDoc (selectedCollection st) payload ∧
    docToTodo (Doc.mk i (applyUpdate payload ∅)) =
      {| Todo.id := i;
         Todo.name := VStr (trim (name st));
         Todo.room := VStr (trim (room st));
         Todo.model :=
           if nonempty (trim (model st)) then Some (VStr (trim (model st))) else None;
         Todo.price :=
           if nonempty (trim (price st)) then Some (parseFloat (trim (price st))) else None;
         Todo.imgUrl :=
           if nonempty (trim (imgUrl st)) then Some (VStr (trim (imgUrl st))) else None;
         Todo.link :=
           if nonempty (trim (link st)) then Some (VStr (trim (link st))) else None;
         Todo.completed := false |}.
Proof.
  intros Hvalid Hadd.
  destruct (handleSubmit_accepts st Hvalid) as [_ Hsubmit].
  eexists _, _. split; [by apply Hsubmit|]. split; [done|].
  pose proof (valid_price st Hvalid) as Hprice.
  unfold docToTodo. cbn [Doc.data Doc.id].
  rewrite !applyUpdate_lookup, !payloadAdd_lookup.
  repeat (case_decide; [discriminate|]).
  repeat (case_decide; [|done]).
  destruct (nonempty (trim (model st))), (nonempty (trim (imgUrl st))),
    (nonempty (trim (link st))), (nonempty (trim (price st)));
    try rewrite Hprice by done; done.
Qed.

(** X16.  An edit rewrites the six form fields and nothing else: the update
    names exactly [name], [room], [model], [price], [imgUrl] and [link], so
    every other stored field is what it was, the completion flag, the
    position and the creation time among them; whatever the stored document
    holds, after the update the mapped item has the name, room and optional
    fields of the form. *)
Theorem edited_item_reads_back (st : State) (i : string) (data : gmap string value) :
  valid_input st → is_edit st i →
  ∃ payload r,
    handleSubmit st = (setError None st, [r]) ∧
    op r = updateDoc (selectedCollection st) i payload ∧
    docToTodo (Doc.mk i (applyUpdate payload data)) =
      {| Todo.id := i;
         Todo.name := VStr (trim (name st));
         Todo.room := VStr (trim (room st));
         Todo.model :=
           if nonempty (trim (model st)) then Some (VStr (trim (model st))) else None;
         Todo.price :=
           if nonempty (trim (price st)) then Some (parseFloat (trim (price st))) else None;
         Todo.imgUrl :=
           if nonempty (trim (imgUrl st)) then Some (VStr (trim (imgUrl st))) else None;
         Todo.link :=
           if nonempty (trim (link st)) then Some (VStr (trim (link st))) else None;
         Todo.completed := Todo.completed (docToTodo (Doc.mk i data)) |} ∧
    (∀ k, is_Some (payload !! k) ↔
          k ∈ ["name"; "room"; "model"; "price"; "imgUrl"; "link"]) ∧
    (∀ k, k ∉ ["name"; "room"; "model"; "price"; "imgUrl"; "link"] →
          applyUpdate payload data !! k = data !! k) ∧
    applyUpdate payload data !! "sort" = data !! "sort" ∧
    applyUpdate payload data !! "createdAt" = data !! "createdAt" ∧
    applyUpdate payload data !! "completed" = data !! "completed".
Proof.
  intros Hvalid Hedit.
  destruct (handleSubmit_accepts st Hvalid) as [Hsubmit _].
  eexists _, _. split; [by apply Hsubmit|]. split; [done|].
  split.
  { unfold docToTodo. cbn [Doc.data Doc.id Todo.completed].
    rewrite !applyUpdate_lookup, !payloadUpdate_lookup.
    repeat (case_decide; [discriminate|]).
    repeat (case_decide; [|done]).
    unfold optional_string.
    destruct (nonempty (trim (model st))), (nonempty (trim (imgUrl st))),
      (nonempty (trim (link st))), (nonempty (trim (price st))); done. }
  split.
  { intros k. rewrite payloadUpdate_lookup, !elem_of_cons, elem_of_nil.
    repeat case_decide; subst; split; intros Hk; try (by eexists); try tauto.
    by destruct Hk. }
  split; [|by rewrite !applyUpdate_lookup, !payloadUpdate_lookup].
  intros k Hk. rewrite !elem_of_cons, elem_of_nil in Hk.
  rewrite applyUpdate_lookup, payloadUpdate_lookup.
  repeat case_decide; subst; try done; tauto.
Qed.

End ReadBack.

(** ** The component backed by local storage *)

Section Local.
Import LocalApp.
Implicit Types (l prev data : list Todo) (t : Todo) (i : string).

Lemma local_toggle_ids i l : id <$> toggle i l = id <$> l.
Proof.
  unfold toggle. rewrite <- list_fmap_compose. apply list_fmap_ext.
  intros k t _. simpl. by destruct (String.eqb (id t) i).
Qed.

(** X18.  Toggling an item of the local list twice gives back the list; a toggle
    keeps the length, the ids and the titles, and leaves the list as it is
    when no item has the id. *)
Theorem local_toggle_involutive i l :
  toggle i (toggle i l) = l ∧
  id <$> toggle i l = id <$> l ∧
  title <$> toggle i l = title <$> l ∧
  (i ∉ id <$> l → toggle i l = l).
Proof.
  split; [|split; [apply local_toggle_ids|split]].
  - unfold toggle. rewrite <- list_fmap_compose.
    rewrite <- (list_fmap_id l) at 2. apply list_fmap_ext.
    intros k [ti tt tc] _. simpl.
    destruct (String.eqb ti i) eqn:Heq; simpl; rewrite Heq; [|done].
    by rewrite negb_involutive.
  - unfold toggle. rewrite <- list_fmap_compose. apply list_fmap_ext.
    intros k t _. simpl. by destruct (String.eqb (id t) i).
  - intros Hnot. unfold toggle.
    rewrite <- (list_fmap_id l) at 2. apply list_fmap_ext.
    intros k t Ht. simpl.
    destruct (String.eqb (id t) i) eqn:Heq; [|done].
    apply String.eqb_eq in Heq. destruct Hnot. rewrite <- Heq.
    apply list_elem_of_fmap_2. by eapply list_elem_of_lookup_2.
Qed.

(** X19.  Removing an id from the local list removes every item with that id and
    no other, keeps the order of the rest, and changes nothing when done a
    second time or for an id that is not in the list. *)
Theorem local_remove_removes_exactly i l :
  (i ∉ id <$> remove i l) ∧
  remove i l `sublist_of` l ∧
  (∀ t, t ∈ l → id t ≠ i → t ∈ remove i l) ∧
  remove i (remove i l) = remove i l ∧
  (i ∉ id <$> l → remove i l = l).
Proof.
  unfold remove. split; [|split; [|split; [|split]]].
  - intros (t & -> & [_ Ht]%filter_elem_of)%list_elem_of_fmap.
    apply negb_true_iff, String.eqb_neq in Ht. done.
  - apply filter_sublist.
  - intros t Ht Hne. apply filter_elem_of. split; [done|].
    by apply negb_true_iff, String.eqb_neq.
  - apply filter_idempotent.
  - intros Hnot. apply filter_true. intros t Ht.
    apply negb_true_iff, String.eqb_neq. intros <-.
    apply Hnot. by apply list_elem_of_fmap_2.
Qed.

(** X20.  An add with a blank title changes nothing, not even the input; otherwise
    the new item goes to the front, and with a fresh id the ids stay unique
    and removing that id gives back the list as it was. *)
Theorem local_add_then_remove `{Platform} (uuid title' : string) (st : State) :
  (trim title' = "" → addTodo uuid title' st = st) ∧
  (trim title' ≠ "" → uuid ∉ id <$> todos st →
     remove uuid (todos (addTodo uuid title' st)) = todos st ∧
     length (todos (addTodo uuid title' st)) = S (length (todos st)) ∧
     input (addTodo uuid title' st) = "" ∧
     (NoDup (id <$> todos st) → NoDup (id <$> todos (addTodo uuid title' st)))).
Proof.
  unfold addTodo. cbv zeta. split.
  - intros Hblank%nonempty_false. by rewrite Hblank.
  - intros Hne%nonempty_true Hfresh. rewrite Hne. cbn [negb todos input].
    split; [|split; [done|split; [done|]]].
    + unfold remove. simpl. rewrite String.eqb_refl. simpl.
      apply filter_true. intros t Ht.
      apply negb_true_iff, String.eqb_neq. intros <-.
      apply Hfresh. by apply list_elem_of_fmap_2.
    + intros Hnodup. simpl. by apply NoDup_cons_2.
Qed.

(** X21.  Clearing the completed items leaves exactly the active ones, in
    order: afterwards the [completed] view is empty, the [active] view is what
    it was, and clearing again changes nothing. *)
Theorem local_clearCompleted_keeps_active l :
  clearCompleted l = filtered l Filter.active ∧
  filtered (clearCompleted l) Filter.completed = [] ∧
  filtered (clearCompleted l) Filter.active = filtered l Filter.active ∧
  filtered (clearCompleted l) Filter.all = filtered l Filter.active ∧
  clearCompleted (clearCompleted l) = clearCompleted l.
Proof.
  unfold clearCompleted, filtered. split; [done|]. split; [|split; [|split; [done|]]].
  - rewrite filter_filter_and.
    rewrite (List.filter_ext _ (λ _, false)); [by induction l|].
    intros t. by destruct (completed t).
  - apply filter_idempotent.
  - apply filter_idempotent.
Qed.

Lemma mergeSample_fold (seen : gset string) data prev :
  foldl (λ merged t, if decide (id t ∈ seen) then merged else (merged ++ [t])) prev data
  = prev ++ List.filter (λ t, bool_decide (id t ∉ seen)) data.
Proof.
  revert prev. induction data as [|t data IH]; intros prev; simpl.
  - by rewrite app_nil_r.
  - rewrite IH. destruct (decide (id t ∈ seen)) as [Hin|Hnot].
    + by rewrite bool_decide_eq_false_2 by (intros Hn; by apply Hn).
    + rewrite bool_decide_eq_true_2 by done. by rewrite <- app_assoc.
Qed.

Lemma mergeSample_eq data prev :
  mergeSample data prev
  = prev ++ List.filter (λ t, bool_decide (id t ∉ id <$> prev)) data.
Proof.
  unfold mergeSample. cbv zeta. rewrite mergeSample_fold. f_equal.
  apply List.filter_ext. intros t. apply bool_decide_ext.
  by rewrite elem_of_list_to_set.
Qed.

(** X22.  Loading the sample gives the local list followed by the sample
    items whose id the list did not hold, each once per occurrence in the
    sample and in the sample's order; no id of the list is repeated by an
    appended item, an empty sample changes nothing, and loading the same
    sample again adds nothing. *)
Theorem local_mergeSample_adds_unseen data prev :
  mergeSample data prev
    = prev ++ List.filter (λ t, bool_decide (id t ∉ id <$> prev)) data ∧
  prev `prefix_of` mergeSample data prev ∧
  (∀ t, t ∈ mergeSample data prev ↔ t ∈ prev ∨ (t ∈ data ∧ id t ∉ id <$> prev)) ∧
  mergeSample [] prev = prev ∧
  mergeSample data (mergeSample data prev) = mergeSample data prev ∧
  (NoDup (id <$> prev) → NoDup (id <$> data) → NoDup (id <$> mergeSample data prev)).
Proof.
  rewrite !mergeSample_eq. split; [done|].
  split; [by apply prefix_app_r|]. split; [|split; [by rewrite app_nil_r|split]].
  - intros t. rewrite elem_of_app, filter_elem_of, bool_decide_eq_true. tauto.
  - set (added := List.filter (λ t, bool_decide (id t ∉ id <$> prev)) data).
    rewrite <- (app_nil_r (prev ++ added)) at 2. f_equal.
    apply filter_none. intros t Ht.
    apply bool_decide_eq_false. intros Hnot. apply Hnot.
    rewrite fmap_app, elem_of_app.
    destruct (decide (id t ∈ id <$> prev)) as [Hin|Hout]; [by left|right].
    apply list_elem_of_fmap_2, filter_elem_of. split; [done|].
    by apply bool_decide_eq_true.
  - intros Hprev Hdata. rewrite fmap_app. apply NoDup_app.
    split; [done|]. split.
    + intros x Hx (t & -> & [_ Ht]%filter_elem_of)%list_elem_of_fmap.
      by apply bool_decide_eq_true in Ht.
    + apply (sublist_NoDup _ (id <$> data)); [done|].
      apply fmap_sublist, filter_sublist.
Qed.
End Local.

Section LocalRename.
Import LocalApp.

(** X23.  A rename keeps the ids, the flags and the length of the local list.  The
    rename form submits the trimmed text, or the old title when the text is
    blank: with unique ids a blank rename leaves the list as it is, and a
    rename to a new text gives every item with that id that title. *)
Theorem local_rename_blank_keeps_title `{Platform}
    (todo : Todo) (title' : string) (prev : list Todo) :
  id <$> submitRename todo title' prev = id <$> prev ∧
  completed <$> submitRename todo title' prev = completed <$> prev ∧
  (NoDup (id <$> prev) → todo ∈ prev → trim title' = "" →
     submitRename todo title' prev = prev) ∧
  (trim title' ≠ "" →
     ∀ t, t ∈ submitRename todo title' prev → id t = id todo → title t = trim title').
Proof.
  unfold submitRename, rename. cbv zeta.
  split; [|split; [|split]].
  - rewrite <- list_fmap_compose. apply list_fmap_ext.
    intros k t _. simpl. by destruct (String.eqb (id t) (id todo)).
  - rewrite <- list_fmap_compose. apply list_fmap_ext.
    intros k t _. simpl. by destruct (String.eqb (id t) (id todo)).
  - intros Hnodup Htodo Hblank%nonempty_false. rewrite Hblank.
    rewrite <- (list_fmap_id prev) at 2. apply list_fmap_ext.
    intros k t Ht. simpl.
    destruct (String.eqb (id t) (id todo)) eqn:Heq; [|done].
    apply String.eqb_eq in Heq.
    apply list_elem_of_lookup in Htodo as [j Hj].
    assert (k = j) as ->.
    { apply (NoDup_lookup _ k j (id todo) Hnodup).
      - rewrite list_lookup_fmap, Ht. simpl. congruence.
      - by rewrite list_lookup_fmap, Hj. }
    assert (t = todo) as -> by congruence. by destruct todo.
  - intros Hne%nonempty_true t (t0 & -> & _)%list_elem_of_fmap Hid.
    rewrite Hne.
    destruct (String.eqb (id t0) (id todo)) eqn:Heq; [done|].
    simpl in Hid. apply String.eqb_neq in Heq. done.
Qed.
End LocalRename.

(** ** Closed instances *)

Lemma submit_settles_witness :
  let P := Reference.platform in
  valid_input adding_milk ∧
  ∃ r, (handleSubmit adding_milk).2 = [r] ∧
    (∀ st', settle r true st' = (setModalOpen false st', [], [])) ∧
    (∀ st', settle r false st' = (st', ["submit failed"], [])).
Proof.
  intros P. split; [exact adding_milk_valid|].
  apply (submit_settles (H := P) adding_milk). exact adding_milk_valid.
Defined.

Lemma add_payload_omits_empty_fields_witness :
  let P := Reference.platform in
  let st := adding_milk in
  valid_input st ∧ is_add st ∧
  ∃ payload r,
    handleSubmit st = (setError None st, [r]) ∧
    op r = addDoc (selectedCollection st) payload ∧
    payload !! "name" = Some (Plain (VStr (trim (name st)))) ∧
    payload !! "room" = Some (Plain (VStr (trim (room st)))) ∧
    payload !! "completed" = Some (Plain (VBool false)) ∧
    payload !! "createdAt" = Some serverTimestamp ∧
    payload !! "sort" = Some (Plain (VNum (of_nat (length (todos st))))) ∧
    (trim (model st) = "" → payload !! "model" = None) ∧
    (trim (price st) = "" → payload !! "price" = None) ∧
    (trim (imgUrl st) = "" → payload !! "imgUrl" = None) ∧
    (trim (link st) = "" → payload !! "link" = None) ∧
    (∀ k, payload !! k ≠ Some deleteField ∧ payload !! k ≠ Some (Plain VNull)).
Proof.
  intros P st. split; [exact adding_milk_valid|]. split; [left; reflexivity|].
  apply (add_payload_omits_empty_fields (H := P) st).
  - exact adding_milk_valid.
  - left. reflexivity.
Defined.

Lemma added_item_reads_back_witness :
  let P := Reference.platform in
  let st := adding_milk in
  valid_input st ∧ is_add st ∧
  ∃ payload r,
    handleSubmit st = (setError None st, [r]) ∧
    op r = addDoc (selectedCollection st) payload ∧
    docToTodo (Doc.mk "m1" (applyUpdate payload ∅)) =
      {| Todo.id := "m1";
         Todo.name := VStr (trim (name st));
         Todo.room := VStr (trim (room st));
         Todo.model :=
           if nonempty (trim (model st)) then Some (VStr (trim (model st))) else None;
         Todo.price :=
           if nonempty (trim (price st)) then Some (parseFloat (trim (price st))) else None;
         Todo.imgUrl :=
           if nonempty (trim (imgUrl st)) then Some (VStr (trim (imgUrl st))) else None;
         Todo.link :=
           if nonempty (trim (link st)) then Some (VStr (trim (link st))) else None;
         Todo.completed := false |}.
Proof.
  intros P st. split; [exact adding_milk_valid|]. split; [left; reflexivity|].
  apply (added_item_reads_back (H := P) st "m1").
  - exact adding_milk_valid.
  - left. reflexivity.
Defined.

Lemma edited_item_reads_back_witness :
  let P := Reference.platform in
  let st := editing_B in
  let data := Doc.data (sample_doc "B" 1) in
  valid_input st ∧ is_edit st "B" ∧
  ∃ payload r,
    handleSubmit st = (setError None st, [r]) ∧
    op r = updateDoc (selectedCollection st) "B" payload ∧
    docToTodo (Doc.mk "B" (applyUpdate payload data)) =
      {| Todo.id := "B";
         Todo.name := VStr (trim (name st));
         Todo.room := VStr (trim (room st));
         Todo.model :=
           if nonempty (trim (model st)) then Some (VStr (trim (model st))) else None;
         Todo.price :=
           if nonempty (trim (price st)) then Some (parseFloat (trim (price st))) else None;
         Todo.imgUrl :=
           if nonempty (trim (imgUrl st)) then Some (VStr (trim (imgUrl st))) else None;
         Todo.link :=
           if nonempty (trim (link st)) then Some (VStr (trim (link st))) else None;
         Todo.completed := Todo.completed (docToTodo (Doc.mk "B" data)) |} ∧
    (∀ k, is_Some (payload !! k) ↔
          k ∈ ["name"; "room"; "model"; "price"; "imgUrl"; "link"]) ∧
    (∀ k, k ∉ ["name"; "room"; "model"; "price"; "imgUrl"; "link"] →
          applyUpdate payload data !! k = data !! k) ∧
    applyUpdate payload data !! "sort" = data !! "sort" ∧
    applyUpdate payload data !! "createdAt" = data !! "createdAt" ∧
    applyUpdate payload data !! "completed" = data !! "completed".
Proof.
  intros P st data.
  split; [exact editing_B_valid|]. split; [split; [reflexivity|discriminate]|].
  apply (edited_item_reads_back (H := P) st "B" data).
  - exact editing_B_valid.
  - split; [reflexivity|discriminate].
Defined.


(** The item read back after the edit of B: the price and the link are
    gone, the flag and the position of the stored document are kept. *)
Example edit_read_back :
  ∃ payload,
    (handleSubmit (H := Reference.platform) editing_B).2 =
      [ {| op := updateDoc "todos" "B" payload;
           onFulfilled := thenCloseModal;
           onRejected := warn "submit failed" |} ] ∧
    docToTodo (Doc.mk "B" (applyUpdate payload
                 (<[ "price" := VNum (of_nat 5) ]> (Doc.data (sample_doc "B" 1))))) =
      {| Todo.id := "B"; Todo.name := VStr "B"; Todo.room := VStr "Kuhinja";
         Todo.model := Some (VStr "V15"); Todo.price := None;
         Todo.imgUrl := Some (VStr "https://example.com/b.png");
         Todo.link := None; Todo.completed := false |}.
Proof. eexists. split; reflexivity. Qed.
